(** * apocalypse-the-server: the gateway layer, embedded and verified

    A shallow embedding of the gateway code of [server.js] and [tools.js]:
    the fixed-window rate limiter, the HTTP/1.1 wire codec, the request
    pipeline with its concurrency counter, the sandbox path validator and the
    statement-execution tool.

    Text.  A JavaScript string is modelled as a [string] whose characters are
    the code units below 256 (the Latin-1 range); [String.length] is the
    [.length] of the JavaScript string.  Numbers that the code uses as
    counters, sizes and timestamps are integers and are modelled in [Z].

    Console logging has no effect on any value the code computes and is left
    out throughout. *)

From Stdlib Require Import ZArith List String Ascii Bool Lia DecimalString.
From stdpp Require Import gmap strings.

Local Open Scope string_scope.
Local Open Scope Z_scope.

#[local] Arguments String.append !_ _ / : simpl nomatch.

(* ===================================================================== *)
(** * Part I: definitions                                                  *)
(* ===================================================================== *)

(** ** JavaScript string methods *)

Module Js.

Definition code (c : ascii) : N := N_of_ascii c.

Definition CR : ascii := "013"%char.
Definition LF : ascii := "010"%char.
Definition CRLF : string := String CR (String LF "").
Definition NUL : ascii := "000"%char.
Definition DQUOTE : ascii := "034"%char.
Definition BACKSLASH : ascii := "092"%char.

(** [c.toLowerCase()] on a code unit below 256: A-Z and the Latin-1 capitals
    (0xC0-0xDE, the multiplication sign 0xD7 apart) move up by 0x20. *)
Definition lower_char (c : ascii) : ascii :=
  let n := code c in
  if ((65 <=? n) && (n <=? 90))%N then ascii_of_N (n + 32)
  else if ((192 <=? n) && (n <=? 222) && negb (n =? 215))%N then ascii_of_N (n + 32)
  else c.

Fixpoint toLowerCase (s : string) : string :=
  match s with
  | EmptyString => EmptyString
  | String c s' => String (lower_char c) (toLowerCase s')
  end.

(** [c.toUpperCase()] of a one-character string.  The sharp s becomes "SS";
    the micro sign and y-diaeresis have their capitals outside the modelled
    range and are left as they are. *)
Definition upper_char (c : ascii) : string :=
  let n := code c in
  if ((97 <=? n) && (n <=? 122))%N then String (ascii_of_N (n - 32)) ""
  else if ((224 <=? n) && (n <=? 254) && negb (n =? 247))%N
       then String (ascii_of_N (n - 32)) ""
  else if (n =? 223)%N then "SS"
  else String c "".

(** White space of [String.prototype.trim] and of the regular expression
    class [\s], below 256. *)
Definition is_space (c : ascii) : bool :=
  let n := code c in
  (((9 <=? n) && (n <=? 13)) || (n =? 32) || (n =? 160))%N.

Fixpoint trimStart (s : string) : string :=
  match s with
  | EmptyString => EmptyString
  | String c s' => if is_space c then trimStart s' else s
  end.

Definition rev_string (s : string) : string :=
  string_of_list_ascii (rev (list_ascii_of_string s)).

Definition trimEnd (s : string) : string := rev_string (trimStart (rev_string s)).

Definition trim (s : string) : string := trimEnd (trimStart s).

(** [s.startsWith(p)] *)
Definition startsWith (s p : string) : bool := String.prefix p s.

(** [s.endsWith(p)] *)
Definition endsWith (s p : string) : bool :=
  String.prefix (rev_string p) (rev_string s).

(** [s.includes(p)] *)
Fixpoint includes (s p : string) : bool :=
  String.prefix p s ||
  match s with
  | EmptyString => false
  | String _ s' => includes s' p
  end.

(** [s.indexOf(c)] for a one-character needle; [None] stands for -1. *)
Fixpoint indexOf (s : string) (c : ascii) : option nat :=
  match s with
  | EmptyString => None
  | String a s' =>
      if Ascii.eqb a c then Some 0%nat
      else match indexOf s' c with
           | Some i => Some (S i)
           | None => None
           end
  end.

(** [s.substring(0, n)] and [s.substring(n)] *)
Fixpoint take (n : nat) (s : string) : string :=
  match n, s with
  | S n', String c s' => String c (take n' s')
  | _, _ => EmptyString
  end.

Fixpoint drop (n : nat) (s : string) : string :=
  match n, s with
  | S n', String _ s' => drop n' s'
  | _, _ => s
  end.

(** Prepend a character to the first piece of a split. *)
Definition cons_head (c : ascii) (l : list string) : list string :=
  match l with
  | [] => [String c ""]
  | x :: xs => String c x :: xs
  end.

(** [s.split(c)] for a one-character separator. *)
Fixpoint split (c : ascii) (s : string) : list string :=
  match s with
  | EmptyString => [""]
  | String a s' =>
      if Ascii.eqb a c then "" :: split c s' else cons_head a (split c s')
  end.

(** [s.split('\r\n')] *)
Fixpoint split_crlf (s : string) : list string :=
  match s with
  | EmptyString => [""]
  | String a t =>
      match t with
      | String b rest =>
          if Ascii.eqb a CR && Ascii.eqb b LF then "" :: split_crlf rest
          else cons_head a (split_crlf t)
      | EmptyString => [String a ""]
      end
  end.

(** [l.join(sep)] *)
Fixpoint join (sep : string) (l : list string) : string :=
  match l with
  | [] => ""
  | [x] => x
  | x :: xs => x +:+ sep +:+ join sep xs
  end.

(** Decimal text of an integer, as template literals and [String(n)] print
    it. *)
Definition of_Z (z : Z) : string := NilZero.string_of_int (Z.to_int z).

Definition of_nat (n : nat) : string := of_Z (Z.of_nat n).

(** [s.length] as an integer. *)
Definition len (s : string) : Z := Z.of_nat (String.length s).

(** [Buffer.byteLength(s, 'utf-8')]: a code unit below 128 takes one byte,
    one in 128..255 takes two. *)
Fixpoint byteLength (s : string) : Z :=
  match s with
  | EmptyString => 0
  | String c s' => (if (code c <? 128)%N then 1 else 2) + byteLength s'
  end.

End Js.

(** ** Rate limiter ([checkRateLimit], server.js) *)

Definition RATE_LIMIT_WINDOW : Z := 60000.
Definition RATE_LIMIT_MAX_REQUESTS : Z := 100.

(** The value stored per client address: [{ count, resetTime }]. *)
Record RateEntry : Type := mkRateEntry { count : Z; resetTime : Z }.

(** [checkRateLimit(ip)] with [Date.now()] and the table [rateLimitMap]
    passed explicitly; the result is the returned boolean and the table after
    the call.  [clientData.count++] mutates the stored object, which is the
    table updated at [ip] with the same [resetTime]. *)
Definition checkRateLimit (ip : string) (now : Z) (rateLimitMap : gmap string RateEntry)
  : bool * gmap string RateEntry :=
  match rateLimitMap !! ip with
  | None =>
      (true, <[ip := mkRateEntry 1 (now + RATE_LIMIT_WINDOW)]> rateLimitMap)
  | Some clientData =>
      if now >? resetTime clientData then
        (true, <[ip := mkRateEntry 1 (now + RATE_LIMIT_WINDOW)]> rateLimitMap)
      else if count clientData >=? RATE_LIMIT_MAX_REQUESTS then
        (false, rateLimitMap)
      else
        (true, <[ip := mkRateEntry (count clientData + 1) (resetTime clientData)]> rateLimitMap)
  end.

(** The periodic sweep installed with [setInterval]: entries whose window
    ended more than one window ago are deleted. *)
Definition sweepRateLimits (now : Z) (rateLimitMap : gmap string RateEntry)
  : gmap string RateEntry :=
  filter (fun kv => negb (now >? resetTime (snd kv) + RATE_LIMIT_WINDOW) = true) rateLimitMap.

(** A run of the server's rate-limit checks: each arriving connection calls
    [checkRateLimit] with its address at its arrival time. *)
Fixpoint run_checks (calls : list (string * Z)) (m : gmap string RateEntry)
  : list (string * bool) * gmap string RateEntry :=
  match calls with
  | [] => ([], m)
  | (ip, now) :: rest =>
      let '(ok, m1) := checkRateLimit ip now m in
      let '(oks, m2) := run_checks rest m1 in
      ((ip, ok) :: oks, m2)
  end.

(** The answers given to one address, in order. *)
Definition answers_for (ip : string) (l : list (string * bool)) : list bool :=
  map snd (filter (fun e => fst e = ip) l).

(** The arrival times of one address, in order. *)
Definition times_of (ip : string) (calls : list (string * Z)) : list Z :=
  map snd (filter (fun e => fst e = ip) calls).

(** ** JavaScript values, errors and plain objects *)

(** A thrown value: [error.name] and [error.message]. *)
Record JsError : Type := mkError { err_name : string; err_message : string }.

(** The outcome of a call that may throw. *)
Inductive Result (A : Type) : Type :=
| Ok (a : A)
| Throw (e : JsError).
Arguments Ok {A} a.
Arguments Throw {A} e.

(** Sequencing: a throw skips the rest.  With the instances below the code
    is written [x ← f a; rest]. *)
#[global] Instance result_ret : MRet Result := fun A a => Ok a.
#[global] Instance result_bind : MBind Result := fun A B k r =>
  match r with
  | Ok a => k a
  | Throw e => Throw e
  end.

(** The values [JSON.parse] produces.  A number is an integer here; a
    property that is not there ([undefined]) is [None] at the lookup. *)
#[warnings="-register-all"]
Inductive JsVal : Type :=
| JNull
| JBool (b : bool)
| JNum (z : Z)
| JStr (s : string)
| JArr (items : list JsVal)
| JObj (props : list (string * JsVal)).

(** A plain object used as a dictionary: its own enumerable properties in
    insertion order. *)
Module Obj.

Definition t (V : Type) : Type := list (string * V).

Fixpoint get {V : Type} (k : string) (o : t V) : option V :=
  match o with
  | [] => None
  | (k', v) :: o' => if String.eqb k' k then Some v else get k o'
  end.

(** [o[k] = v] on an own data property: overwritten in place when it is
    there, added last otherwise. *)
Fixpoint set {V : Type} (k : string) (v : V) (o : t V) : t V :=
  match o with
  | [] => [(k, v)]
  | (k', v') :: o' =>
      if String.eqb k' k then (k', v) :: o' else (k', v') :: set k v o'
  end.

(** The property names every object literal inherits from
    [Object.prototype]; each of them reads as a truthy value (a function, or
    the prototype itself for [__proto__]). *)
Definition prototype_names : list string :=
  [ "constructor"; "__defineGetter__"; "__defineSetter__"; "hasOwnProperty";
    "__lookupGetter__"; "__lookupSetter__"; "isPrototypeOf";
    "propertyIsEnumerable"; "toString"; "valueOf"; "__proto__";
    "toLocaleString" ].

Definition inherited (k : string) : bool :=
  existsb (String.eqb k) prototype_names.

End Obj.

(** Truthiness: what [!v] negates. *)
Definition truthy (v : JsVal) : bool :=
  match v with
  | JNull => false
  | JBool b => b
  | JNum z => negb (z =? 0)
  | JStr s => negb (String.eqb s "")
  | JArr _ => true
  | JObj _ => true
  end.

Definition truthy_opt (v : option JsVal) : bool :=
  match v with
  | None => false
  | Some x => truthy x
  end.

(** [v.k] for the property names the gateway reads ([preamble], [headers],
    [body], [version], [status], [reason]): none of them is defined on a
    built-in prototype, so only an object's own property answers. *)
Definition prop (v : JsVal) (k : string) : option JsVal :=
  match v with
  | JObj props => Obj.get k props
  | _ => None
  end.

(** [`${v}`]: the string conversion of a template literal. *)
Fixpoint ToString (v : JsVal) : string :=
  match v with
  | JNull => "null"
  | JBool true => "true"
  | JBool false => "false"
  | JNum z => Js.of_Z z
  | JStr s => s
  | JArr items =>
      Js.join "," (map (fun x => match x with JNull => "" | _ => ToString x end) items)
  | JObj _ => "[object Object]"
  end.

(** ** [JSON.stringify] *)

Module Json.

Definition hex_digit (n : N) : ascii :=
  if (n <? 10)%N then ascii_of_N (48 + n) else ascii_of_N (87 + n).

Definition escape_char (c : ascii) : string :=
  let n := Js.code c in
  if Ascii.eqb c Js.DQUOTE then String Js.BACKSLASH (String Js.DQUOTE "")
  else if Ascii.eqb c Js.BACKSLASH then String Js.BACKSLASH (String Js.BACKSLASH "")
  else if (n =? 8)%N then String Js.BACKSLASH "b"
  else if (n =? 12)%N then String Js.BACKSLASH "f"
  else if (n =? 10)%N then String Js.BACKSLASH "n"
  else if (n =? 13)%N then String Js.BACKSLASH "r"
  else if (n =? 9)%N then String Js.BACKSLASH "t"
  else if (n <? 32)%N then
    String Js.BACKSLASH ("u00" +:+ String (hex_digit (n / 16)) (String (hex_digit (n mod 16)) ""))
  else String c "".

Fixpoint escape (s : string) : string :=
  match s with
  | EmptyString => EmptyString
  | String c s' => escape_char c +:+ escape s'
  end.

Definition quote (s : string) : string :=
  String Js.DQUOTE (escape s) +:+ String Js.DQUOTE "".

(** One bracketed group: [open], the members separated by commas, [close];
    with a non-empty [gap] each member is on a line of its own. *)
Definition group (gap indent : string) (open close : string) (members : list string) : string :=
  match members with
  | [] => open +:+ close
  | _ =>
      if String.eqb gap "" then open +:+ Js.join "," members +:+ close
      else
        let inner := indent +:+ gap in
        let nl := String Js.LF "" in
        open +:+ nl +:+ inner +:+ Js.join ("," +:+ nl +:+ inner) members
             +:+ nl +:+ indent +:+ close
  end.

(** [JSON.stringify(v, null, gap)] at the current indentation. *)
Fixpoint stringify_at (gap indent : string) (v : JsVal) : string :=
  match v with
  | JNull => "null"
  | JBool true => "true"
  | JBool false => "false"
  | JNum z => Js.of_Z z
  | JStr s => quote s
  | JArr items =>
      group gap indent "[" "]" (map (stringify_at gap (indent +:+ gap)) items)
  | JObj props =>
      group gap indent "{" "}"
        (map (fun kv =>
                quote (fst kv) +:+ (if String.eqb gap "" then ":" else ": ")
                      +:+ stringify_at gap (indent +:+ gap) (snd kv))
             props)
  end.

(** [JSON.stringify(v)] *)
Definition stringify (v : JsVal) : string := stringify_at "" "" v.

(** [JSON.stringify(v, null, 2)] *)
Definition stringify2 (v : JsVal) : string := stringify_at "  " "" v.

End Json.

(** ** Wire codec: [parseHttpRequest] (server.js) *)

(** What [parseHttpRequest] returns. *)
Record ParsedRequest : Type := mkParsed {
  req_method : string;
  req_path : string;
  req_fullPath : string;
  req_query : Obj.t string;
  req_version : string;
  req_headers : Obj.t (list string);
  req_body : string
}.

Definition Error (message : string) : JsError := mkError "Error" message.
Definition TypeError (message : string) : JsError := mkError "TypeError" message.
Definition URIError (message : string) : JsError := mkError "URIError" message.

Definition nonempty (s : string) : bool := negb (String.eqb s "").

Section Parse.

(** The built-in [decodeURIComponent]: the decoded text, or a thrown
    [URIError] on a malformed escape sequence. *)
Variable decodeURIComponent : string -> Result string.

(** [query[k] = v] on the object literal [query], [v] a string.  The name
    [__proto__] is an accessor inherited from [Object.prototype] whose setter
    ignores a value that is not an object: no property is created. *)
Definition query_assign (k v : string) (query : Obj.t string) : Obj.t string :=
  if String.eqb k "__proto__" then query else Obj.set k v query.

(** The body of the [forEach] callback over [queryString.split('&')]. *)
Definition parse_param (query : Obj.t string) (param : string) : Result (Obj.t string) :=
  let parts := Js.split "=" param in
  let key := nth 0 parts "" in
  let value := nth_error parts 1 in
  if nonempty key then
    k ← decodeURIComponent key;
    v ← match value with
        | Some raw => if nonempty raw then decodeURIComponent raw else Ok ""
        | None => Ok ""
        end;
    Ok (query_assign k v query)
  else Ok query.

Fixpoint parse_params (query : Obj.t string) (params : list string) : Result (Obj.t string) :=
  match params with
  | [] => Ok query
  | param :: rest =>
      query' ← parse_param query param;
      parse_params query' rest
  end.

Definition parse_query (queryString : string) : Result (Obj.t string) :=
  if nonempty queryString then parse_params [] (Js.split "&" queryString)
  else Ok [].

(** [if (!headers[name]) headers[name] = []; headers[name].push(value)]:
    an own property is appended to; a name inherited from [Object.prototype]
    reads as a truthy value without [push], and the call throws; any other
    name starts a new list. *)
Definition header_push (name value : string) (headers : Obj.t (list string))
  : Result (Obj.t (list string)) :=
  match Obj.get name headers with
  | Some values => Ok (Obj.set name (values ++ [value])%list headers)
  | None =>
      if Obj.inherited name
      then Throw (TypeError "headers[headerName].push is not a function")
      else Ok (Obj.set name [value] headers)
  end.

(** One iteration of the header loop on a non-empty line. *)
Definition parse_header_line (line : string) (headers : Obj.t (list string))
  : Result (Obj.t (list string)) :=
  match Js.indexOf line ":" with
  | Some (S c) =>
      let colonIndex := S c in
      let headerName := Js.toLowerCase (Js.trim (Js.take colonIndex line)) in
      let headerValue := Js.trim (Js.drop (colonIndex + 1) line) in
      header_push headerName headerValue headers
  | _ => Ok headers
  end.

(** The loop [for (; i < rest.length; i++)]: it returns the headers and the
    index [i] at which it stopped (the first empty line, or [rest.length]). *)
Fixpoint header_loop (rest : list string) (i : nat) (headers : Obj.t (list string))
  : Result (Obj.t (list string) * nat) :=
  match rest with
  | [] => Ok (headers, i)
  | line :: rest' =>
      if String.eqb line "" then Ok (headers, i)
      else
        headers' ← parse_header_line line headers;
        header_loop rest' (S i) headers'
  end.

Definition parseHttpRequest (rawRequest : string) : Result ParsedRequest :=
  if negb (nonempty rawRequest)
  then Throw (Error "Invalid request: empty or non-string input")
  else
    match Js.split_crlf rawRequest with
    | [] => Throw (Error "Invalid request: no lines found")
    | requestLine :: rest =>
        if negb (nonempty requestLine)
        then Throw (Error "Invalid request: missing request line")
        else
          match Js.split " " requestLine with
          | [method; fullPath; version] =>
              let queryIndex := Js.indexOf fullPath "?" in
              let path := match queryIndex with
                          | Some q => Js.take q fullPath
                          | None => fullPath
                          end in
              let queryString := match queryIndex with
                                 | Some q => Js.drop (q + 1) fullPath
                                 | None => ""
                                 end in
              query ← parse_query queryString;
              '(headers, i) ← header_loop rest 0 [];
              let body := Js.join Js.CRLF (skipn (i + 1) rest) in
              Ok (mkParsed method path fullPath query version headers body)
          | requestParts =>
              Throw (Error ("Invalid request line: expected 3 parts, got "
                            +:+ Js.of_nat (length requestParts)))
          end
    end.

End Parse.

(** A percent-decoder to run the parser with: it decodes the escapes below
    [%80], and throws on a [%] that is not followed by two hexadecimal digits,
    as [decodeURIComponent] does.  (An escape from [%80] on starts a UTF-8
    sequence; this decoder rejects it.) *)
Definition hex_value (c : ascii) : option N :=
  let n := Js.code c in
  if ((48 <=? n) && (n <=? 57))%N then Some (n - 48)%N
  else if ((65 <=? n) && (n <=? 70))%N then Some (n - 55)%N
  else if ((97 <=? n) && (n <=? 102))%N then Some (n - 87)%N
  else None.

Fixpoint percent_decode (s : string) : Result string :=
  match s with
  | EmptyString => Ok ""
  | String c t =>
      if Ascii.eqb c "%" then
        match t with
        | String h (String l rest) =>
            match hex_value h, hex_value l with
            | Some a, Some b =>
                if (16 * a + b <? 128)%N
                then r ← percent_decode rest; Ok (String (ascii_of_N (16 * a + b)) r)
                else Throw (URIError "URI malformed")
            | _, _ => Throw (URIError "URI malformed")
            end
        | _ => Throw (URIError "URI malformed")
        end
      else r ← percent_decode t; Ok (String c r)
  end.

(** ** Wire codec: [createErrorResponse] and [formatHttpResponse] (server.js) *)

(** The table [statusReasons]. *)
Definition statusReasons (status : Z) : option string :=
  if status =? 400 then Some "Bad Request"
  else if status =? 401 then Some "Unauthorized"
  else if status =? 403 then Some "Forbidden"
  else if status =? 404 then Some "Not Found"
  else if status =? 405 then Some "Method Not Allowed"
  else if status =? 408 then Some "Request Timeout"
  else if status =? 413 then Some "Payload Too Large"
  else if status =? 429 then Some "Too Many Requests"
  else if status =? 500 then Some "Internal Server Error"
  else if status =? 501 then Some "Not Implemented"
  else if status =? 503 then Some "Service Unavailable"
  else if status =? 504 then Some "Gateway Timeout"
  else None.

(** [createErrorResponse(status, message)]; every call in the gateway leaves
    [includeDetails] at its default [false], so no timestamp is added. *)
Definition createErrorResponse (status : Z) (message : string) : JsVal :=
  let reason := match statusReasons status with
                | Some r => r
                | None => "Error"
                end in
  JObj [ ("preamble", JObj [ ("version", JStr "HTTP/1.1");
                             ("status", JNum status);
                             ("reason", JStr reason) ]);
         ("headers", JObj [ ("Content-Type", JArr [JStr "application/json"]) ]);
         ("body", JObj [ ("error", JStr reason); ("message", JStr message) ]) ].

(** [Object.entries(v)] for a value that is not [undefined]: [null] throws;
    a string or an array lists its indices; a number or a boolean has no
    entries.  (Property names that are array indices are listed first by
    JavaScript; the objects here keep insertion order.) *)
Fixpoint indexed {A : Type} (i : nat) (l : list A) : list (string * A) :=
  match l with
  | [] => []
  | x :: l' => (Js.of_nat i, x) :: indexed (S i) l'
  end.

Definition Object_entries (v : JsVal) : Result (list (string * JsVal)) :=
  match v with
  | JNull => Throw (TypeError "Cannot convert undefined or null to object")
  | JBool _ | JNum _ => Ok []
  | JStr s => Ok (indexed 0 (map (fun c => JStr (String c "")) (list_ascii_of_string s)))
  | JArr items => Ok (indexed 0 items)
  | JObj props => Ok props
  end.

(** One iteration of the loop that merges header names case-insensitively:
    [normalizedHeaders[lowerName] = normalizedHeaders[lowerName] || []]
    followed by [push(...valueArray)].  A lower-cased name inherited from
    [Object.prototype] reads as a truthy value without [push]. *)
Definition normalize_header (normalizedHeaders : Obj.t (list JsVal)) (entry : string * JsVal)
  : Result (Obj.t (list JsVal)) :=
  let '(name, values) := entry in
  let lowerName := Js.toLowerCase name in
  let valueArray := match values with
                    | JArr items => items
                    | _ => [values]
                    end in
  match Obj.get lowerName normalizedHeaders with
  | Some old => Ok (Obj.set lowerName (old ++ valueArray)%list normalizedHeaders)
  | None =>
      if Obj.inherited lowerName
      then Throw (TypeError "normalizedHeaders[lowerName].push is not a function")
      else Ok (Obj.set lowerName valueArray normalizedHeaders)
  end.

Fixpoint normalize_headers (normalizedHeaders : Obj.t (list JsVal))
    (entries : list (string * JsVal)) : Result (Obj.t (list JsVal)) :=
  match entries with
  | [] => Ok normalizedHeaders
  | entry :: rest =>
      normalizedHeaders' ← normalize_header normalizedHeaders entry;
      normalize_headers normalizedHeaders' rest
  end.

(** [part.charAt(0).toUpperCase() + part.slice(1)] *)
Definition capitalize (part : string) : string :=
  match part with
  | EmptyString => ""
  | String c rest => Js.upper_char c +:+ rest
  end.

Definition properName (name : string) : string :=
  Js.join "-" (map capitalize (Js.split "-" name)).

Definition header_lines (normalizedHeaders : Obj.t (list JsVal)) : list string :=
  flat_map (fun entry =>
              map (fun value => properName (fst entry) +:+ ": " +:+ ToString value)
                  (snd entry))
           normalizedHeaders.

(** [`${v}`] of a value that may be [undefined]. *)
Definition ToString_opt (v : option JsVal) : string :=
  match v with
  | Some x => ToString x
  | None => "undefined"
  end.

Definition formatHttpResponse (responseJson : JsVal) : Result string :=
  match responseJson with
  | JArr _ | JObj _ =>
      let preamble := prop responseJson "preamble" in
      let headers := match prop responseJson "headers" with
                     | Some h => h
                     | None => JObj []
                     end in
      let body := prop responseJson "body" in
      let field k := match preamble with
                     | Some p => prop p k
                     | None => None
                     end in
      if negb (truthy_opt preamble) || negb (truthy_opt (field "version"))
         || negb (truthy_opt (field "status")) || negb (truthy_opt (field "reason"))
      then Throw (Error "Invalid response: missing or incomplete preamble")
      else
        let statusLine :=
          ToString_opt (field "version") +:+ " " +:+ ToString_opt (field "status")
            +:+ " " +:+ ToString_opt (field "reason") in
        entries ← Object_entries headers;
        normalizedHeaders ← normalize_headers [] entries;
        let bodyString := match body with
                          | None | Some JNull => ""
                          | Some (JStr s) => s
                          | Some v => Json.stringify v
                          end in
        let contentLength :=
          match Obj.get "content-length" normalizedHeaders with
          | None =>
              if nonempty bodyString
              then ["Content-Length: " +:+ Js.of_Z (Js.byteLength bodyString)]
              else []
          | Some _ => []
          end in
        Ok (Js.join Js.CRLF
              ([statusLine] ++ header_lines normalizedHeaders ++ contentLength
                 ++ [""; bodyString])%list)
  | _ => Throw (Error "Invalid response: not an object")
  end.

(** ** The request pipeline: [processRequest] (server.js) *)

Definition MAX_RESPONSE_SIZE : Z := 10 * 1024 * 1024.
Definition MAX_PROMPT_SIZE : Z := 5 * 1024 * 1024.
Definition MAX_CONCURRENT_REQUESTS : Z := 10.

(** What the pipeline does that can be seen from outside: the two updates of
    the module-level counter [concurrentRequests] (with its value after the
    update) and the start of a delegate query. *)
Inductive Event : Type :=
| Incremented (value : Z)
| Decremented (value : Z)
| QueryStarted (prompt : string).

Record Gateway : Type := mkGateway {
  concurrentRequests : Z;
  events : list Event
}.

(** How a statement completes: normally, by [return], or by [throw]. *)
Inductive Completion (A : Type) : Type :=
| Normal (a : A)
| Returned (response : string)
| Thrown (e : JsError).
Arguments Normal {A} a.
Arguments Returned {A} response.
Arguments Thrown {A} e.

(** Statements of the pipeline thread the gateway state. *)
Definition Stmt (A : Type) : Type := Gateway -> Completion A * Gateway.

#[global] Instance stmt_ret : MRet Stmt := fun A a st => (Normal a, st).
#[global] Instance stmt_bind : MBind Stmt := fun A B k m st =>
  match m st with
  | (Normal a, st') => k a st'
  | (Returned r, st') => (Returned r, st')
  | (Thrown e, st') => (Thrown e, st')
  end.

(** [return e], where evaluating [e] may throw. *)
Definition return_ {A : Type} (e : Result string) : Stmt A := fun st =>
  match e with
  | Ok response => (Returned response, st)
  | Throw err => (Thrown err, st)
  end.

(** [throw e] *)
Definition throw {A : Type} (e : JsError) : Stmt A := fun st => (Thrown e, st).

(** [const x = e], where evaluating [e] may throw. *)
Definition eval {A : Type} (e : Result A) : Stmt A := fun st =>
  match e with
  | Ok a => (Normal a, st)
  | Throw err => (Thrown err, st)
  end.

(** [try { body } catch (error) { handler }] *)
Definition try_catch {A : Type} (body : Stmt A) (handler : JsError -> Stmt A) : Stmt A :=
  fun st =>
    match body st with
    | (Thrown e, st') => handler e st'
    | done => done
    end.

(** [try { body } finally { finalizer }]: the finalizer runs however the body
    completes, and the body's completion stands unless the finalizer itself
    returns or throws. *)
Definition try_finally {A : Type} (body : Stmt A) (finalizer : Stmt unit) : Stmt A :=
  fun st =>
    let '(c, st1) := body st in
    match finalizer st1 with
    | (Normal _, st2) => (c, st2)
    | (Returned r, st2) => (Returned r, st2)
    | (Thrown e, st2) => (Thrown e, st2)
    end.

(** [concurrentRequests++] and [concurrentRequests--] *)
Definition increment : Stmt unit := fun st =>
  let n := concurrentRequests st + 1 in
  (Normal tt, mkGateway n (events st ++ [Incremented n])%list).

Definition decrement : Stmt unit := fun st =>
  let n := concurrentRequests st - 1 in
  (Normal tt, mkGateway n (events st ++ [Decremented n])%list).

Definition start_query (prompt : string) : Stmt unit := fun st =>
  (Normal tt, mkGateway (concurrentRequests st) (events st ++ [QueryStarted prompt])%list).

(** The messages the delegate streams. *)
Inductive Block : Type :=
| TextBlock (text : string)
| OtherBlock.

Inductive Message : Type :=
| AssistantMessage (content : list Block)
| ResultMessage (subtype : string) (result : option string)
| OtherMessage.

(** One run of the external decision-maker on a prompt: the messages it
    yields, the error with which the stream ends (if it does not end
    normally), and whether the deadline timer has fired, which is what
    [abortController.signal.aborted] reads in the [catch] block. *)
Record DelegateRun : Type := mkRun {
  run_messages : list Message;
  run_failure : option JsError;
  run_aborted : bool
}.

(** The inner [for (const block of message.message.content)] loop, carrying
    [fullResponse] and [responseSize]. *)
Fixpoint collect_blocks (content : list Block) (fullResponse : string) (responseSize : Z)
  : Stmt (string * Z) :=
  match content with
  | [] => mret (fullResponse, responseSize)
  | TextBlock text :: rest =>
      let responseSize := responseSize + Js.len text in
      if responseSize >? MAX_RESPONSE_SIZE
      then return_ (formatHttpResponse (createErrorResponse 500 "Response too large"))
      else collect_blocks rest (fullResponse +:+ text) responseSize
  | OtherBlock :: rest => collect_blocks rest fullResponse responseSize
  end.

(** The body of [for await (const message of queryStream)]. *)
Definition collect_message (message : Message) (fullResponse : string) (responseSize : Z)
  : Stmt (string * Z) :=
  match message with
  | AssistantMessage content => collect_blocks content fullResponse responseSize
  | ResultMessage subtype result =>
      if String.eqb subtype "success" then
        let resultText := match result with
                          | Some r => r
                          | None => ""
                          end in
        let responseSize := responseSize + Js.len resultText in
        if responseSize >? MAX_RESPONSE_SIZE
        then return_ (formatHttpResponse (createErrorResponse 500 "Response too large"))
        else mret (fullResponse +:+ resultText, responseSize)
      else if Js.startsWith subtype "error" then
        if String.eqb subtype "error_max_budget_usd"
        then return_ (formatHttpResponse (createErrorResponse 503 "Service budget exceeded"))
        else if String.eqb subtype "error_max_turns"
        then return_ (formatHttpResponse (createErrorResponse 500 "Request too complex"))
        else mret (fullResponse, responseSize)
      else mret (fullResponse, responseSize)
  | OtherMessage => mret (fullResponse, responseSize)
  end.

(** The whole [for await] loop over one run: after the last message the
    stream ends, normally or with the run's error. *)
Fixpoint collect (messages : list Message) (failure : option JsError)
    (fullResponse : string) (responseSize : Z) : Stmt (string * Z) :=
  match messages with
  | [] =>
      match failure with
      | Some e => throw e
      | None => mret (fullResponse, responseSize)
      end
  | message :: rest =>
      '(fullResponse', responseSize') ← collect_message message fullResponse responseSize;
      collect rest failure fullResponse' responseSize'
  end.

(** [extractJsonResponse(text)].  The scan of the text (the fenced code
    block first, then every brace-balanced match of the [preamble] pattern)
    and [JSON.parse] are taken as [candidates]: the values that parse, in the
    order the function tries them.  The function returns the first whose
    [preamble] is truthy. *)
Definition extractJsonResponse (candidates : string -> list JsVal) (text : string) : JsVal :=
  if negb (nonempty text) then createErrorResponse 500 "No response from Claude"
  else
    match List.find (fun parsed => truthy_opt (prop parsed "preamble")) (candidates text) with
    | Some parsed => parsed
    | None => createErrorResponse 500 "Failed to generate proper HTTP response"
    end.

(** What the pipeline takes from outside for one request. *)
Record Environment : Type := mkEnv {
  (** [decodeURIComponent] *)
  env_decode : string -> Result string;
  (** the prompt template filled in for a parsed request (it carries the
      request id and a timestamp) *)
  env_prompt : ParsedRequest -> string;
  (** the run of [query({prompt, options})] *)
  env_query : string -> DelegateRun;
  (** the JSON values found in the delegate's output *)
  env_candidates : string -> list JsVal
}.

(** The inner [try { ... } catch (error) { ... }] around the delegation. *)
Definition delegate (env : Environment) (prompt : string) : Stmt Empty_set :=
  let run := env_query env prompt in
  try_catch
    (_ ← start_query prompt;
     '(fullResponse, _) ← collect (run_messages run) (run_failure run) "" 0;
     let responseJson := extractJsonResponse (env_candidates env) fullResponse in
     return_ (formatHttpResponse responseJson))
    (fun error =>
       if String.eqb (err_name error) "AbortError" || run_aborted run
       then return_ (formatHttpResponse (createErrorResponse 504 "Gateway timeout"))
       else throw error).

(** The outer [try { ... } catch (error) { ... }] of [processRequest]. *)
Definition guarded_request (env : Environment) (rawRequest : string) : Stmt Empty_set :=
  try_catch
    (parsed ← eval (parseHttpRequest (env_decode env) rawRequest);
     let prompt := env_prompt env parsed in
     if Js.len prompt >? MAX_PROMPT_SIZE
     then return_ (formatHttpResponse
                     (createErrorResponse 413 "Request data too large for processing"))
     else delegate env prompt)
    (fun error =>
       if nonempty (err_message error)
          && Js.includes (err_message error) "Invalid request"
       then return_ (formatHttpResponse
                       (createErrorResponse 400 "Malformed HTTP request"))
       else return_ (formatHttpResponse
                       (createErrorResponse 500 "Internal server error"))).

(** [processRequest(rawRequest)]: the response text it resolves to (or the
    error it rejects with) and the gateway state afterwards. *)
Definition processRequest (env : Environment) (rawRequest : string) : Stmt Empty_set :=
  fun st =>
    if concurrentRequests st >=? MAX_CONCURRENT_REQUESTS
    then return_ (formatHttpResponse
                    (createErrorResponse 503 "Server busy, please try again later")) st
    else
      (_ ← increment;
       try_finally (guarded_request env rawRequest) decrement) st.

(** ** Node's [path] module, POSIX flavour, as [tools.js] uses it *)

Module Path.

Definition isAbsolute (p : string) : bool :=
  match p with
  | String c _ => Ascii.eqb c "/"
  | EmptyString => false
  end.

(** [normalizeString]: the segments between separators are taken left to
    right onto a stack (kept reversed here); empty segments and [.] are
    skipped, [..] removes the segment before it, or is kept when nothing can
    be removed and the path is relative ([allowAboveRoot]). *)
Fixpoint normalize_segments (allowAboveRoot : bool) (segments res : list string)
  : list string :=
  match segments with
  | [] => res
  | seg :: rest =>
      if String.eqb seg "" || String.eqb seg "." then
        normalize_segments allowAboveRoot rest res
      else if String.eqb seg ".." then
        match res with
        | top :: below =>
            if String.eqb top ".."
            then normalize_segments allowAboveRoot rest (".." :: res)
            else normalize_segments allowAboveRoot rest below
        | [] =>
            normalize_segments allowAboveRoot rest
              (if allowAboveRoot then [".."] else [])
        end
      else normalize_segments allowAboveRoot rest (seg :: res)
  end.

Definition normalizeString (p : string) (allowAboveRoot : bool) : string :=
  Js.join "/" (rev (normalize_segments allowAboveRoot (Js.split "/" p) [])).

(** [path.normalize(p)] *)
Definition normalize (p : string) : string :=
  if negb (nonempty p) then "."
  else
    let isAbs := isAbsolute p in
    let trailingSeparator := Js.endsWith p "/" in
    let n := normalizeString p (negb isAbs) in
    if negb (nonempty n) then
      if isAbs then "/" else if trailingSeparator then "./" else "."
    else
      let n := if trailingSeparator then n +:+ "/" else n in
      if isAbs then "/" +:+ n else n.

(** The loop of [path.resolve] over its arguments from the right, the
    working directory last, until an absolute one is met. *)
Fixpoint resolve_loop (args : list string) (resolvedPath : string) : string * bool :=
  match args with
  | [] => (resolvedPath, false)
  | p :: rest =>
      if negb (nonempty p) then resolve_loop rest resolvedPath
      else
        let resolvedPath := p +:+ "/" +:+ resolvedPath in
        if isAbsolute p then (resolvedPath, true) else resolve_loop rest resolvedPath
  end.

(** [path.resolve(...args)], with [process.cwd()] given. *)
Definition resolve (cwd : string) (args : list string) : string :=
  let '(resolvedPath, resolvedAbsolute) := resolve_loop (rev args ++ [cwd])%list "" in
  let n := normalizeString resolvedPath (negb resolvedAbsolute) in
  if resolvedAbsolute then "/" +:+ n
  else if nonempty n then n else ".".

Fixpoint drop_while (f : ascii -> bool) (l : list ascii) : list ascii :=
  match l with
  | [] => []
  | c :: l' => if f c then drop_while f l' else l
  end.

(** [path.dirname(p)]: scanning from the end down to index 1, trailing
    separators are passed over, then the last segment, and the path is cut at
    the separator before it. *)
Definition dirname (p : string) : string :=
  match p with
  | EmptyString => "."
  | String c0 tail =>
      let hasRoot := Ascii.eqb c0 "/" in
      let is_sep := fun c => Ascii.eqb c "/" in
      let r1 := drop_while is_sep (rev (list_ascii_of_string tail)) in
      let r2 := drop_while (fun c => negb (is_sep c)) r1 in
      match r2 with
      | [] => if hasRoot then "/" else "."
      | _ :: r3 =>
          match r3 with
          | [] => if hasRoot then "//" else String c0 ""
          | _ => String c0 (string_of_list_ascii (rev r3))
          end
      end
  end.

End Path.

(** ** Sandbox path validator: [validateAndResolvePath] (tools.js) *)

(** What [fs.realpath(p)] does: the path with every symbolic link resolved,
    or a failure, of which the code tells [ENOENT] from the rest. *)
Inductive Realpath : Type :=
| Real (realPath : string)
| ENOENT
| Failure (e : JsError).

Section Sandbox.

(** [process.cwd()], the storage directory and the file system. *)
Variable cwd : string.
Variable FILE_STORAGE_DIR : string.
Variable realpath : string -> Realpath.

Definition SAFE_BASE_DIR : string := Js.toLowerCase (Path.normalize FILE_STORAGE_DIR).
Definition SAFE_BASE_DIR_ORIGINAL : string := Path.normalize FILE_STORAGE_DIR.

Definition validateAndResolvePath (filepath : string) : Result string :=
  if Path.isAbsolute filepath
  then Throw (Error "Access denied: Absolute paths not allowed")
  else if Js.includes filepath (String Js.NUL "")
  then Throw (Error "Access denied: Null bytes in path")
  else if Js.endsWith filepath "/" || Js.endsWith filepath "/" || Js.endsWith filepath "\"
  then Throw (Error "Access denied: Path cannot end with separator")
  else
    let resolvedPath := Path.resolve cwd [SAFE_BASE_DIR_ORIGINAL; filepath] in
    let normalizedPath := Path.normalize resolvedPath in
    let normalizedLower := Js.toLowerCase normalizedPath in
    if negb (Js.startsWith normalizedLower SAFE_BASE_DIR)
    then Throw (Error "Access denied: Path is outside allowed directory")
    else
      match realpath normalizedPath with
      | Real realPath =>
          let realPathLower := Js.toLowerCase realPath in
          if negb (Js.startsWith realPathLower SAFE_BASE_DIR)
          then Throw (Error "Access denied: Symlink points outside allowed directory")
          else Ok realPath
      | ENOENT =>
          let parentDir := Path.dirname normalizedPath in
          match realpath parentDir with
          | Real realParentPath =>
              let realParentLower := Js.toLowerCase realParentPath in
              if negb (Js.startsWith realParentLower SAFE_BASE_DIR)
              then Throw (Error "Access denied: Parent directory does not exist")
              else Ok normalizedPath
          | _ => Throw (Error "Access denied: Parent directory does not exist")
          end
      | Failure e => Throw e
      end.

End Sandbox.

(** The segments of a path, and containment of one location in a directory:
    the directory's segments begin the location's. *)
Definition segments (p : string) : list string :=
  filter (fun seg => nonempty seg = true) (Js.split "/" p).

Fixpoint begins (l1 l2 : list string) : bool :=
  match l1, l2 with
  | [], _ => true
  | a :: l1', b :: l2' => String.eqb a b && begins l1' l2'
  | _ :: _, [] => false
  end.

Definition inside (root location : string) : bool :=
  begins (segments root) (segments location).

(** ** Statement-execution tool: [sqliteTool] (tools.js) *)

Definition MAX_QUERY_SIZE : Z := 1 * 1024 * 1024.

(** Matching for the patterns of [READONLY_SQL_PATTERNS]. *)
Module Re.

(** [\s+] at the start: the rest after one or more white-space characters. *)
Definition spaces1 (s : string) : option string :=
  match s with
  | String c rest => if Js.is_space c then Some (Js.trimStart rest) else None
  | EmptyString => None
  end.

(** A keyword at the start, letters compared without case: the rest after
    it. *)
Definition keyword (kw s : string) : option string :=
  if String.prefix (Js.toLowerCase kw) (Js.toLowerCase s)
  then Some (Js.drop (String.length kw) s)
  else None.

(** [kw\s+] at the start. *)
Definition keyword_spaces (kw s : string) : option string :=
  match keyword kw s with
  | Some rest => spaces1 rest
  | None => None
  end.

(** [\s+SELECT\s+] somewhere in the text. *)
Fixpoint has_select (s : string) : bool :=
  match s with
  | EmptyString => false
  | String c rest =>
      (Js.is_space c && bool_decide (is_Some (keyword_spaces "SELECT" (Js.trimStart rest))))
      || has_select rest
  end.

End Re.

Definition pragma_names : list string :=
  ["table_info"; "index_list"; "foreign_key_list"; "database_list"; "compile_options"].

(** [isReadOnlyQuery(sqlQuery)]: the four patterns in turn, each anchored at
    the start of the trimmed text after optional white space. *)
Definition isReadOnlyQuery (sqlQuery : string) : bool :=
  let trimmed := Js.trimStart (Js.trim sqlQuery) in
  bool_decide (is_Some (Re.keyword_spaces "SELECT" trimmed))
  || bool_decide (is_Some (Re.keyword_spaces "EXPLAIN" trimmed))
  || match Re.keyword_spaces "PRAGMA" trimmed with
     | Some rest =>
         existsb (fun name =>
                    match Re.keyword name rest with
                    | Some after => Js.startsWith (Js.trimStart after) "("
                    | None => false
                    end) pragma_names
     | None => false
     end
  || match Re.keyword "WITH" trimmed with
     | Some (String c rest) => Js.is_space c && Re.has_select rest
     | _ => false
     end.

(** What a tool hands back: the text of its one content item and the
    [isError] flag. *)
Record ToolResult : Type := mkToolResult {
  tool_text : string;
  tool_isError : bool
}.

Section Sqlite.

(** The database engine (better-sqlite3) in its current state: opening the
    database, preparing a statement, and running it for rows or for its
    effect.  Each of them may throw. *)
Variable Statement : Type.
Variable getDatabase : Result unit.
Variable prepare : string -> Result Statement.
Variable stmt_all : Statement -> list JsVal -> Result (list JsVal).
Variable stmt_run : Statement -> list JsVal -> Result (Z * Z).

(** The [try] block: the payload that is serialised on success. *)
Definition sqlite_try (sqlQuery : string) (params : list JsVal) : Result JsVal :=
  if Js.len sqlQuery >? MAX_QUERY_SIZE
  then Throw (Error ("Query too large: " +:+ Js.of_Z (Js.len sqlQuery) +:+ " bytes (max: "
                     +:+ Js.of_Z MAX_QUERY_SIZE +:+ " bytes)"))
  else
    _ ← getDatabase;
    let readOnly := isReadOnlyQuery sqlQuery in
    if readOnly then
      stmt ← prepare sqlQuery;
      results ← stmt_all stmt params;
      Ok (JObj [ ("success", JBool true);
                 ("rows", JArr results);
                 ("rowCount", JNum (Z.of_nat (length results))) ])
    else
      stmt ← prepare sqlQuery;
      result ← stmt_run stmt params;
      Ok (JObj [ ("success", JBool true);
                 ("changes", JNum (fst result));
                 ("lastInsertRowid", JNum (snd result)) ]).

(** The handler of the tool, [try { ... } catch (error) { ... }]; [params]
    defaults to the empty list.  (The refresh of the schema cache after a
    table is created or dropped catches its own errors and is left out.) *)
Definition sqliteTool (sqlQuery : string) (params : list JsVal) : ToolResult :=
  match sqlite_try sqlQuery params with
  | Ok payload => mkToolResult (Json.stringify2 payload) false
  | Throw error =>
      mkToolResult
        (Json.stringify2 (JObj [ ("success", JBool false);
                                 ("error", JStr "Database error") ]))
        true
  end.

(** The engine raises on a query: opening the database throws, or preparing
    the statement throws, or running the prepared statement throws (for its
    rows when the query is read-only, for its effect otherwise). *)
Definition engine_raises (sqlQuery : string) (params : list JsVal) : Prop :=
  (exists e, getDatabase = Throw e)
  \/ (exists e, prepare sqlQuery = Throw e)
  \/ (exists stmt e,
        prepare sqlQuery = Ok stmt
        /\ if isReadOnlyQuery sqlQuery then stmt_all stmt params = Throw e
           else stmt_run stmt params = Throw e).

End Sqlite.

(** ** File tool: [read_file] (tools.js) *)

Definition MAX_FILE_SIZE : Z := 10 * 1024 * 1024.

(** What [fs.stat] tells of a path: [stats.isFile()] and [stats.size]. *)
Record Stats : Type := mkStats {
  stat_isFile : bool;
  stat_size : Z
}.

(** The [catch] block of the file tools: an error whose message starts with
    [Access denied] is shown, any other is replaced by the tool's generic
    text. *)
Definition file_error (generic : string) (error : JsError) : ToolResult :=
  mkToolResult
    (Json.stringify2
       (JObj [ ("success", JBool false);
               ("error", JStr (if Js.startsWith (err_message error) "Access denied"
                               then err_message error
                               else generic)) ]))
    true.

Section FileTools.

(** [process.cwd()], the storage directory, and the file system as it is
    during the call: [fs.realpath], [fs.stat] and [fs.readFile]; and
    [path.relative]. *)
Variable cwd : string.
Variable FILE_STORAGE_DIR : string.
Variable realpath : string -> Realpath.
Variable stat : string -> Result Stats.
Variable readFile : string -> Result string.
Variable relative : string -> string -> string.

(** The [try] block: the payload that is serialised on success. *)
Definition read_file_try (filepath : string) : Result JsVal :=
  resolvedPath ← validateAndResolvePath cwd FILE_STORAGE_DIR realpath filepath;
  stats ← stat resolvedPath;
  if negb (stat_isFile stats) then Throw (Error "Path is not a file")
  else if stat_size stats >? MAX_FILE_SIZE
  then Throw (Error ("File too large: " +:+ Js.of_Z (stat_size stats) +:+ " bytes (max: "
                     +:+ Js.of_Z MAX_FILE_SIZE +:+ " bytes)"))
  else
    content ← readFile resolvedPath;
    Ok (JObj [ ("success", JBool true);
               ("filepath", JStr (relative (SAFE_BASE_DIR_ORIGINAL FILE_STORAGE_DIR)
                                    resolvedPath));
               ("content", JStr content);
               ("size", JNum (stat_size stats)) ]).

Definition readFileTool (filepath : string) : ToolResult :=
  match read_file_try filepath with
  | Ok payload => mkToolResult (Json.stringify2 payload) false
  | Throw error => file_error "File operation failed" error
  end.

End FileTools.

(** ** The connection handler: the callback of [http.createServer] (server.js) *)

Definition MAX_REQUEST_SIZE : Z := 10 * 1024 * 1024.

(** What the handler sends: the value of [res.statusCode], the calls of
    [res.setHeader] in order, and the argument of [res.end]. *)
Record Response : Type := mkResponse {
  res_status : Z;
  res_headers : list (string * string);
  res_body : string
}.

(** The local variables of one connection, and what has been sent on it
    ([res.headersSent] reads whether something has). *)
Record Connection : Type := mkConnection {
  rawRequest : string;
  requestSize : Z;
  requestAborted : bool;
  sent : option Response
}.

(** The response of a handler that gives up: a JSON body with an error and a
    message, the content type and the request id. *)
Definition error_reply (requestId : string) (status : Z) (error message : string) : Response :=
  mkResponse status
    [("Content-Type", "application/json"); ("X-Request-Id", requestId)]
    (Json.stringify (JObj [("error", JStr error); ("message", JStr message)])).

(** [if (!res.headersSent) { ... res.end(...) }] *)
Definition send_once (reply : Response) (c : Connection) : option Response :=
  match sent c with
  | Some already => Some already
  | None => Some reply
  end.

(** The rate-limit gate at the start of the callback: the 429 response for
    a denied address, or nothing, and the table afterwards. *)
Definition rate_gate (requestId clientIp : string) (now : Z) (m : gmap string RateEntry)
  : option Response * gmap string RateEntry :=
  let '(ok, m') := checkRateLimit clientIp now m in
  if ok then (None, m')
  else (Some (mkResponse 429
                [("Content-Type", "application/json"); ("Retry-After", "60");
                 ("X-Request-Id", requestId)]
                (Json.stringify
                   (JObj [("error", JStr "Too Many Requests");
                          ("message", JStr "Rate limit exceeded, please try again later")]))),
        m').

(** [req.on('data', chunk => ...)]: a chunk is a sequence of bytes, and
    [chunk.toString('latin1')] is the string of the same code units. *)
Definition on_data (requestId : string) (chunk : string) (c : Connection) : Connection :=
  if requestAborted c then c
  else
    let requestSize := requestSize c + Js.len chunk in
    if requestSize >? MAX_REQUEST_SIZE then
      mkConnection (rawRequest c) requestSize true
        (send_once (error_reply requestId 413 "Payload Too Large"
                      ("Maximum request size is " +:+ Js.of_Z MAX_REQUEST_SIZE +:+ " bytes"))
                   c)
    else mkConnection (rawRequest c +:+ chunk) requestSize false (sent c).

(** [req.setTimeout(REQUEST_TIMEOUT, () => ...)] *)
Definition on_timeout (requestId : string) (c : Connection) : Connection :=
  if requestAborted c then c
  else mkConnection (rawRequest c) (requestSize c) true
         (send_once (error_reply requestId 408 "Request Timeout" "Request took too long") c).

(** [req.on('error', ...)] *)
Definition on_error (requestId : string) (c : Connection) : Connection :=
  if requestAborted c then c
  else mkConnection (rawRequest c) (requestSize c) true
         (send_once (error_reply requestId 400 "Bad Request" "Invalid request") c).

(** What happens on a connection before its end. *)
Inductive ConnEvent : Type :=
| Data (chunk : string)
| Timeout
| RequestError.

Definition on_event (requestId : string) (e : ConnEvent) (c : Connection) : Connection :=
  match e with
  | Data chunk => on_data requestId chunk c
  | Timeout => on_timeout requestId c
  | RequestError => on_error requestId c
  end.

Definition on_events (requestId : string) (es : list ConnEvent) (c : Connection) : Connection :=
  fold_left (fun c e => on_event requestId e c) es c.

Definition new_connection : Connection := mkConnection "" 0 false None.

(** A value of [req.headers]: one string, or a list for a header that Node
    keeps as an array. *)
Inductive HeaderValue : Type :=
| Single (value : string)
| Multiple (values : list string).

Definition header_text (entry : string * HeaderValue) : string :=
  match entry with
  | (name, Single value) => name +:+ ": " +:+ value
  | (name, Multiple values) =>
      Js.join Js.CRLF (map (fun v => name +:+ ": " +:+ v) values)
  end.

(** The request text that the [end] handler builds for [processRequest],
    from [req.method], [req.url], [req.httpVersion], [req.headers] and the
    body text. *)
Definition fullRequest (method url httpVersion : string)
    (headers : list (string * HeaderValue)) (bodyText : string) : string :=
  let requestLine := method +:+ " " +:+ url +:+ " HTTP/" +:+ httpVersion in
  let headerLines := Js.join Js.CRLF (map header_text headers) in
  requestLine +:+ Js.CRLF +:+ headerLines +:+ Js.CRLF +:+ Js.CRLF +:+ bodyText.

(** The [end] handler up to its call of [processRequest]: nothing when the
    request was aborted, the request text otherwise.  [decode_utf8] stands
    for [Buffer.from(rawRequest, 'latin1').toString('utf-8')]. *)
Definition request_to_process (decode_utf8 : string -> string)
    (method url httpVersion : string) (headers : list (string * HeaderValue))
    (c : Connection) : option string :=
  if requestAborted c then None
  else Some (fullRequest method url httpVersion headers (decode_utf8 (rawRequest c))).

(** [s.indexOf(needle)] for a needle of any length. *)
Fixpoint indexOfString (s needle : string) : option nat :=
  if String.prefix needle s then Some 0%nat
  else match s with
       | EmptyString => None
       | String _ s' =>
           match indexOfString s' needle with
           | Some i => Some (S i)
           | None => None
           end
       end.

Definition is_digit (c : ascii) : bool :=
  let n := Js.code c in ((48 <=? n) && (n <=? 57))%N.

(** The longest run of characters of a class at the start, and the rest. *)
Fixpoint span (f : ascii -> bool) (s : string) : string * string :=
  match s with
  | EmptyString => ("", "")
  | String c s' =>
      if f c then let '(run, rest) := span f s' in (String c run, rest)
      else ("", s)
  end.

(** The pattern [/HTTP\/[\d.]+ (\d+)/] tried at the start of the text: the
    digits of its group.  Both runs are greedy, and a shorter first run
    would be followed by a character of its own class, not by the space. *)
Definition status_match_here (s : string) : option string :=
  if String.prefix "HTTP/" s then
    let '(version, rest) := span (fun c => is_digit c || Ascii.eqb c ".") (Js.drop 5 s) in
    if nonempty version then
      match rest with
      | String sp rest' =>
          if Ascii.eqb sp " " then
            let '(digits, _) := span is_digit rest' in
            if nonempty digits then Some digits else None
          else None
      | EmptyString => None
      end
    else None
  else None.

(** [statusLine.match(...)]: the leftmost position at which the pattern
    matches. *)
Fixpoint status_match (s : string) : option string :=
  match status_match_here s with
  | Some digits => Some digits
  | None =>
      match s with
      | EmptyString => None
      | String _ s' => status_match s'
      end
  end.

(** [parseInt(digits)] of a non-empty run of decimal digits. *)
Definition parseInt (digits : string) : Z :=
  fold_left (fun acc c => 10 * acc + Z.of_N (Js.code c - 48))
            (list_ascii_of_string digits) 0.

(** The loop over the header lines of the response: the [(name, value)]
    pairs given to [res.setHeader], in order. *)
Definition response_header (line : string) : list (string * string) :=
  match Js.indexOf line ":" with
  | Some (S c) =>
      let colonIndex := S c in
      [(Js.trim (Js.take colonIndex line), Js.trim (Js.drop (colonIndex + 1) line))]
  | _ => []
  end.

(** The [end] handler after [processRequest]: the response text is cut at
    the first blank line; the status code is read from the status line (200
    when the pattern does not match), the request id and the header lines
    become headers, and the rest is the body.  Without a blank line the
    handler throws. *)
Definition deliver (requestId httpResponse : string) : Result Response :=
  match indexOfString httpResponse (Js.CRLF +:+ Js.CRLF) with
  | None => Throw (Error "Invalid HTTP response format")
  | Some splitIndex =>
      let headerSection := Js.take splitIndex httpResponse in
      let responseBody := Js.drop (splitIndex + 4) httpResponse in
      let responseHeaderLines := Js.split_crlf headerSection in
      let statusLine := nth 0 responseHeaderLines "" in
      let statusCode := match status_match statusLine with
                        | Some digits => parseInt digits
                        | None => 200
                        end in
      Ok (mkResponse statusCode
            (("X-Request-Id", requestId)
               :: flat_map response_header (skipn 1 responseHeaderLines))
            responseBody)
  end.

(** ** Notions the statements below are phrased with *)

(** The window of an address is closed at [now]: it has no entry in the
    table, or the stored reset time has passed. *)
Definition window_closed (ip : string) (now : Z) (m : gmap string RateEntry) : Prop :=
  match m !! ip with
  | None => True
  | Some d => now > resetTime d
  end.

(** Counter updates in a list of events. *)
Definition counter_values (l : list Event) : list Z :=
  flat_map (fun e => match e with
                     | Incremented v | Decremented v => [v]
                     | QueryStarted _ => []
                     end) l.

Definition is_increment (e : Event) : bool :=
  match e with Incremented _ => true | _ => false end.
Definition is_decrement (e : Event) : bool :=
  match e with Decremented _ => true | _ => false end.
Definition is_query (e : Event) : bool :=
  match e with QueryStarted _ => true | _ => false end.

Definition increments (l : list Event) : nat := length (List.filter is_increment l).
Definition decrements (l : list Event) : nat := length (List.filter is_decrement l).
Definition queries (l : list Event) : nat := length (List.filter is_query l).

(** Requests served one after the other, each to completion: the sequential
    execution model of the pipeline. *)
Fixpoint serve (requests : list (Environment * string)) (st : Gateway)
  : list (Completion Empty_set) * Gateway :=
  match requests with
  | [] => ([], st)
  | (env, rawRequest) :: rest =>
      let '(c, st1) := processRequest env rawRequest st in
      let '(cs, st2) := serve rest st1 in
      (c :: cs, st2)
  end.

(** The first line of a serialised response. *)
Definition status_line (response : string) : string :=
  nth 0 (Js.split_crlf response) "".

(** A field of the preamble of an envelope; [None] when the preamble or the
    field is missing. *)
Definition preamble_field (responseJson : JsVal) (k : string) : option JsVal :=
  match prop responseJson "preamble" with
  | Some p => prop p k
  | None => None
  end.

(** The envelope that a request brings to the serialiser: the request
    parses, its prompt is within the size limit, the delegate's stream is
    collected to its normal end, and [extractJsonResponse] is applied to the
    collected text.  [None] when the pipeline leaves before that. *)
Definition delegated_envelope (env : Environment) (rawRequest : string) : option JsVal :=
  match parseHttpRequest (env_decode env) rawRequest with
  | Ok parsed =>
      let prompt := env_prompt env parsed in
      if Js.len prompt >? MAX_PROMPT_SIZE then None
      else
        let run := env_query env prompt in
        match collect (run_messages run) (run_failure run) "" 0 (mkGateway 0 []) with
        | (Normal (fullResponse, _), _) =>
            Some (extractJsonResponse (env_candidates env) fullResponse)
        | _ => None
        end
  | Throw _ => None
  end.

(** Whether the deadline of the delegation has fired for a request. *)
Definition deadline_fired (env : Environment) (rawRequest : string) : bool :=
  match parseHttpRequest (env_decode env) rawRequest with
  | Ok parsed => run_aborted (env_query env (env_prompt env parsed))
  | Throw _ => false
  end.

(** The key and the value of one [key=value] pair of a query string, as
    [param.split('=')] gives them: the text before the first [=], and the
    text between the first and the second [=] if there is an [=]. *)
Definition param_key (param : string) : string := nth 0 (Js.split "=" param) "".
Definition param_value (param : string) : option string := nth_error (Js.split "=" param) 1.

(** The decoded value of the last pair with the decoded key [k], among pairs
    with a non-empty key; a pair without a value, or with an empty one, has
    the value [""].  Pairs that do not decode are passed over. *)
Fixpoint last_value (decode : string -> Result string) (k : string) (params : list string)
  : option string :=
  match params with
  | [] => None
  | param :: rest =>
      match last_value decode k rest with
      | Some v => Some v
      | None =>
          if nonempty (param_key param) then
            match decode (param_key param) with
            | Ok k' =>
                if String.eqb k' k then
                  match param_value param with
                  | Some raw =>
                      if nonempty raw then
                        match decode raw with
                        | Ok v => Some v
                        | Throw _ => None
                        end
                      else Some ""
                  | None => Some ""
                  end
                else None
            | Throw _ => None
            end
          else None
      end
  end.

(** A statement is quiet when it leaves the counter alone: it keeps
    [concurrentRequests] and adds no counter update to the events. *)
Definition quiet {A : Type} (m : Stmt A) : Prop :=
  forall st, exists c new,
    m st = (c, mkGateway (concurrentRequests st) (events st ++ new)%list)
    /\ counter_values new = [].

(** A statement is stateless when it neither reads nor changes the gateway
    state: it completes the same way from every state. *)
Definition stateless {A : Type} (m : Stmt A) : Prop :=
  exists c, forall st, m st = (c, st).

(** The errors [formatHttpResponse] throws. *)
Definition format_errors : list JsError :=
  [ Error "Invalid response: not an object";
    Error "Invalid response: missing or incomplete preamble";
    TypeError "Cannot convert undefined or null to object";
    TypeError "normalizedHeaders[lowerName].push is not a function" ].

(** The name and the value that a header line of a request contributes:
    the text before the first colon, trimmed and lower-cased, and the text
    after it, trimmed; nothing when the line has no colon after its first
    character. *)
Definition header_entry (line : string) : option (string * string) :=
  match Js.indexOf line ":" with
  | Some (S c) =>
      Some (Js.toLowerCase (Js.trim (Js.take (S c) line)),
            Js.trim (Js.drop (S c + 1) line))
  | _ => None
  end.

(** The values that a list of header lines carries for a name, in order. *)
Definition header_values (name : string) (lines : list string) : list string :=
  flat_map (fun line => match header_entry line with
                        | Some (n, v) => if String.eqb n name then [v] else []
                        | None => []
                        end) lines.

(** The values that the entries of a response envelope carry for a
    lower-cased header name, in order. *)
Definition envelope_values (lowerName : string) (entries : list (string * JsVal))
  : list JsVal :=
  flat_map (fun entry =>
              if String.eqb (Js.toLowerCase (fst entry)) lowerName
              then match snd entry with
                   | JArr items => items
                   | v => [v]
                   end
              else []) entries.

(** How the collection of a delegate's stream completes (it does not depend
    on the gateway state). *)
Definition collected (env : Environment) (prompt : string) : Completion (string * Z) :=
  (collect (run_messages (env_query env prompt)) (run_failure (env_query env prompt))
     "" 0 (mkGateway 0 [])).1.

(** The error envelope with which the outer [catch] of [processRequest]
    answers an error. *)
Definition caught_reply (error : JsError) : JsVal :=
  if nonempty (err_message error) && Js.includes (err_message error) "Invalid request"
  then createErrorResponse 400 "Malformed HTTP request"
  else createErrorResponse 500 "Internal server error".

(** What changes the rate-limit table while the server runs: the check of
    an arriving connection and the periodic sweep. *)
Inductive TableOp : Type :=
| CheckOp (ip : string) (now : Z)
| SweepOp (now : Z).

Definition run_table (ops : list TableOp) (m : gmap string RateEntry)
  : gmap string RateEntry :=
  fold_left (fun m op => match op with
                         | CheckOp ip now => (checkRateLimit ip now m).2
                         | SweepOp now => sweepRateLimits now m
                         end) ops m.

(** An environment to run the pipeline with: the delegate answers every
    prompt with one assistant message carrying the JSON text of [envelope],
    and the scan of that text finds the envelope. *)
Definition scripted (envelope : JsVal) (aborted : bool) : Environment :=
  mkEnv percent_decode
    (fun _ => "Process this HTTP/1.1 request and generate an appropriate response")
    (fun _ => mkRun [AssistantMessage [TextBlock (Json.stringify envelope)]] None aborted)
    (fun text => if String.eqb text (Json.stringify envelope) then [envelope] else []).

(** The number of bytes in a list of chunks. *)
Fixpoint total_size (chunks : list string) : Z :=
  match chunks with
  | [] => 0
  | chunk :: rest => Js.len chunk + total_size rest
  end.

(** A text doubled [n] times, to have texts longer than the size limits
    without writing them out. *)
Fixpoint doubled (n : nat) (s : string) : string :=
  match n with
  | O => s
  | S n' => doubled n' (s +:+ s)
  end.

(* ===================================================================== *)
(** * Part II: properties                                                  *)
(* ===================================================================== *)

(** ** Rate limiter *)

Section RateLimiter.

Implicit Types (m : gmap string RateEntry) (ip : string) (now : Z).

(** A check for one address leaves the entries of the others as they are. *)
Lemma checkRateLimit_frame ip ip' now m :
  ip ≠ ip' -> ((checkRateLimit ip' now m).2) !! ip = m !! ip.
Proof.
  intros Hne. unfold checkRateLimit.
  destruct (m !! ip') as [d|]; simpl.
  - destruct (now >? resetTime d); simpl.
    + by rewrite lookup_insert_ne.
    + destruct (count d >=? RATE_LIMIT_MAX_REQUESTS); simpl; [done|].
      by rewrite lookup_insert_ne.
  - by rewrite lookup_insert_ne.
Qed.

(** A check on a closed window opens a new one with the count at 1. *)
Lemma checkRateLimit_new_window ip now m :
  window_closed ip now m ->
  checkRateLimit ip now m
  = (true, <[ip := mkRateEntry 1 (now + RATE_LIMIT_WINDOW)]> m).
Proof.
  unfold window_closed, checkRateLimit. intros H.
  destruct (m !! ip) as [d|]; [|done].
  assert ((now >? resetTime d) = true) as -> by lia. done.
Qed.

(** A check inside the window, below the maximum: allowed, count up by one. *)
Lemma checkRateLimit_below ip now m k R :
  m !! ip = Some (mkRateEntry k R) -> now <= R -> k < RATE_LIMIT_MAX_REQUESTS ->
  checkRateLimit ip now m = (true, <[ip := mkRateEntry (k + 1) R]> m).
Proof.
  intros Hm Hnow Hk. unfold checkRateLimit. rewrite Hm. simpl.
  assert ((now >? R) = false) as -> by lia.
  assert ((k >=? RATE_LIMIT_MAX_REQUESTS) = false) as -> by lia. done.
Qed.

(** A check inside the window, at the maximum: denied, nothing changes. *)
Lemma checkRateLimit_at_max ip now m k R :
  m !! ip = Some (mkRateEntry k R) -> now <= R -> RATE_LIMIT_MAX_REQUESTS <= k ->
  checkRateLimit ip now m = (false, m).
Proof.
  intros Hm Hnow Hk. unfold checkRateLimit. rewrite Hm. simpl.
  assert ((now >? R) = false) as -> by lia.
  assert ((k >=? RATE_LIMIT_MAX_REQUESTS) = true) as -> by lia. done.
Qed.

Lemma answers_for_cons_eq ip ok l :
  answers_for ip ((ip, ok) :: l) = ok :: answers_for ip l.
Proof. unfold answers_for. rewrite filter_cons_True; done. Qed.

Lemma answers_for_cons_ne ip ip' ok l :
  ip' ≠ ip -> answers_for ip ((ip', ok) :: l) = answers_for ip l.
Proof. intros. unfold answers_for. rewrite filter_cons_False; done. Qed.

Lemma times_of_cons_eq ip t l : times_of ip ((ip, t) :: l) = t :: times_of ip l.
Proof. unfold times_of. rewrite filter_cons_True; done. Qed.

Lemma times_of_cons_ne ip ip' t l : ip' ≠ ip -> times_of ip ((ip', t) :: l) = times_of ip l.
Proof. intros. unfold times_of. rewrite filter_cons_False; done. Qed.

(** Inside an open window with [k] requests counted, the next checks of the
    address are allowed until the count reaches the maximum and denied from
    then on, whatever other addresses do in between. *)
Lemma run_checks_in_window ip R calls :
  forall m k,
    m !! ip = Some (mkRateEntry k R) ->
    k <= RATE_LIMIT_MAX_REQUESTS ->
    Forall (fun t => t <= R) (times_of ip calls) ->
    answers_for ip (run_checks calls m).1
    = (repeat true (Nat.min (Z.to_nat (RATE_LIMIT_MAX_REQUESTS - k)) (length (times_of ip calls)))
       ++ repeat false (length (times_of ip calls) - Z.to_nat (RATE_LIMIT_MAX_REQUESTS - k)))%list.
Proof.
  induction calls as [|[ip' now] calls IH]; intros m k Hm Hk Hall.
  - simpl. by rewrite Nat.min_0_r.
  - simpl. destruct (checkRateLimit ip' now m) as [ok m1] eqn:Hc.
    destruct (run_checks calls m1) as [oks m2] eqn:Hr. simpl.
    destruct (decide (ip' = ip)) as [->|Hne].
    + rewrite answers_for_cons_eq, times_of_cons_eq.
      rewrite times_of_cons_eq in Hall. inversion Hall as [|? ? Hnow Hrest]; subst.
      destruct (Z_lt_le_dec k RATE_LIMIT_MAX_REQUESTS) as [Hlt|Hge].
      * rewrite (checkRateLimit_below ip now m k R) in Hc by done.
        injection Hc as <- <-.
        specialize (IH (<[ip := mkRateEntry (k + 1) R]> m) (k + 1)).
        rewrite Hr in IH. simpl in IH.
        rewrite IH; [| by rewrite lookup_insert_eq | lia | done].
        replace (Z.to_nat (RATE_LIMIT_MAX_REQUESTS - k))
          with (S (Z.to_nat (RATE_LIMIT_MAX_REQUESTS - (k + 1)))) by lia.
        simpl. done.
      * rewrite (checkRateLimit_at_max ip now m k R) in Hc by done.
        injection Hc as <- <-.
        specialize (IH m k). rewrite Hr in IH. simpl in IH.
        rewrite IH by done.
        replace (Z.to_nat (RATE_LIMIT_MAX_REQUESTS - k)) with 0%nat by lia.
        simpl. by rewrite Nat.sub_0_r.
    + rewrite answers_for_cons_ne, times_of_cons_ne by done.
      rewrite times_of_cons_ne in Hall by done.
      specialize (IH m1 k). rewrite Hr in IH. simpl in IH.
      apply IH; [|done|done].
      replace m1 with (checkRateLimit ip' now m).2 by (by rewrite Hc).
      rewrite checkRateLimit_frame; done.
Qed.

(** C3. An address whose window is closed makes N+1 checks, N the maximum
    per window, none later than the reset time the first one sets: the first
    N are allowed and the last is denied, whatever other addresses do in
    between.  And a check after the stored reset time has passed is allowed,
    stores the count 1 and moves the reset time to now plus the window. *)
Theorem rate_limit_window :
  (forall ip calls m t0 later,
      times_of ip calls = t0 :: later ->
      length later = Z.to_nat RATE_LIMIT_MAX_REQUESTS ->
      window_closed ip t0 m ->
      Forall (fun t => t <= t0 + RATE_LIMIT_WINDOW) later ->
      answers_for ip (run_checks calls m).1
      = (repeat true (Z.to_nat RATE_LIMIT_MAX_REQUESTS) ++ [false])%list)
  /\
  (forall ip now m d,
      m !! ip = Some d -> now > resetTime d ->
      checkRateLimit ip now m
      = (true, <[ip := mkRateEntry 1 (now + RATE_LIMIT_WINDOW)]> m)).
Proof.
  split.
  - intros ip calls. induction calls as [|[ip' now] calls IH];
      intros m t0 later Htimes Hlen Hclosed Hall.
    + discriminate.
    + simpl. destruct (checkRateLimit ip' now m) as [ok m1] eqn:Hc.
      destruct (run_checks calls m1) as [oks m2] eqn:Hr. simpl.
      destruct (decide (ip' = ip)) as [->|Hne].
      * rewrite times_of_cons_eq in Htimes. injection Htimes as -> Hlater.
        rewrite checkRateLimit_new_window in Hc by done. injection Hc as <- <-.
        rewrite answers_for_cons_eq.
        pose proof (run_checks_in_window ip (t0 + RATE_LIMIT_WINDOW) calls
                      (<[ip := mkRateEntry 1 (t0 + RATE_LIMIT_WINDOW)]> m) 1) as Hw.
        rewrite Hr in Hw. simpl in Hw.
        rewrite Hw; [| by rewrite lookup_insert_eq | unfold RATE_LIMIT_MAX_REQUESTS; lia
                     | by rewrite Hlater].
        rewrite Hlater, Hlen. unfold RATE_LIMIT_MAX_REQUESTS. reflexivity.
      * rewrite times_of_cons_ne in Htimes by done.
        rewrite answers_for_cons_ne by done.
        specialize (IH m1 t0 later Htimes Hlen). rewrite Hr in IH. simpl in IH.
        apply IH; [|done].
        unfold window_closed.
        replace m1 with (checkRateLimit ip' now m).2 by (by rewrite Hc).
        rewrite checkRateLimit_frame; done.
  - intros ip now m d Hm Hnow. apply checkRateLimit_new_window.
    unfold window_closed. by rewrite Hm.
Qed.

(** C4. A denied check leaves the table as it was; and a check is denied
    exactly when the address has an entry whose window has not ended and
    whose count is at or above the maximum. *)
Theorem denied_check_keeps_table ip now m :
  (checkRateLimit ip now m).1 = false ->
  (checkRateLimit ip now m).2 = m
  /\ ((checkRateLimit ip now m).2) !! ip = m !! ip
  /\ exists d, m !! ip = Some d /\ now <= resetTime d
               /\ RATE_LIMIT_MAX_REQUESTS <= count d.
Proof.
  unfold checkRateLimit.
  destruct (m !! ip) as [d|] eqn:Hm; simpl; [|discriminate].
  destruct (now >? resetTime d) eqn:Hnow; simpl; [discriminate|].
  destruct (count d >=? RATE_LIMIT_MAX_REQUESTS) eqn:Hcount; simpl; [|discriminate].
  intros _. split; [done|]. split; [done|].
  exists d. split; [done|]. split; lia.
Qed.

(** The sweep keeps every entry whose window ended at most one window ago,
    and removes the others. *)
Lemma sweepRateLimits_lookup ip now m d :
  m !! ip = Some d ->
  sweepRateLimits now m !! ip
  = if now >? resetTime d + RATE_LIMIT_WINDOW then None else Some d.
Proof.
  intros Hm. unfold sweepRateLimits.
  destruct (now >? resetTime d + RATE_LIMIT_WINDOW) eqn:Hnow.
  - apply map_lookup_filter_None. right. intros d' Hd'. simpl.
    rewrite Hm in Hd'. injection Hd' as <-. by rewrite Hnow.
  - apply map_lookup_filter_Some. split; [done|]. simpl. by rewrite Hnow.
Qed.

End RateLimiter.

(** Two hundred and one checks: one address opens its window at time 1000
    and checks a hundred times more before it ends, with another address in
    between. *)
Lemma rate_limit_window_witness :
  answers_for "10.0.0.1"
    (run_checks (("10.0.0.1", 1000) :: ("10.0.0.2", 1500)
                   :: repeat ("10.0.0.1", 61000) 100) ∅).1
  = (repeat true 100 ++ [false])%list
  /\ checkRateLimit "10.0.0.1" 70000 {[ "10.0.0.1" := mkRateEntry 100 61000 ]}
     = (true, <[ "10.0.0.1" := mkRateEntry 1 130000 ]>
                {[ "10.0.0.1" := mkRateEntry 100 61000 ]}).
Proof.
  split.
  - apply (proj1 rate_limit_window "10.0.0.1" _ ∅ 1000 (repeat 61000 100)).
    + reflexivity.
    + reflexivity.
    + exact I.
    + apply Forall_forall. intros t Ht. apply list_elem_of_In, repeat_spec in Ht.
      subst t. unfold RATE_LIMIT_WINDOW. lia.
  - apply (proj2 rate_limit_window "10.0.0.1" 70000 _ (mkRateEntry 100 61000)).
    + reflexivity.
    + simpl. lia.
Defined.

(** The hundred-and-first check inside a window is denied and changes
    nothing. *)
Lemma denied_check_keeps_table_witness :
  let m : gmap string RateEntry := {[ "10.0.0.1" := mkRateEntry 100 61000 ]} in
  (checkRateLimit "10.0.0.1" 2000 m).1 = false
  /\ (checkRateLimit "10.0.0.1" 2000 m).2 = m.
Proof.
  intros m. split.
  - reflexivity.
  - apply (denied_check_keeps_table "10.0.0.1" 2000 m). reflexivity.
Defined.

(** ** Strings and lists of lines *)

Section Strings.

Lemma nonempty_true s : nonempty s = true <-> s <> "".
Proof.
  unfold nonempty. destruct (String.eqb_spec s ""); simpl; split; intros; congruence.
Qed.

Lemma nonempty_false s : nonempty s = false <-> s = "".
Proof.
  unfold nonempty. destruct (String.eqb_spec s ""); simpl; split; intros; congruence.
Qed.

Lemma append_nil_r s : s +:+ "" = s.
Proof. induction s; simpl; congruence. Qed.

Lemma append_assoc s1 s2 s3 : (s1 +:+ s2) +:+ s3 = s1 +:+ (s2 +:+ s3).
Proof. induction s1; simpl; congruence. Qed.

Lemma cons_head_not_nil a l : Js.cons_head a l <> [].
Proof. destruct l; done. Qed.

Lemma split_crlf_not_nil s : Js.split_crlf s <> [].
Proof.
  destruct s as [|a [|b rest]]; simpl; [done | done |].
  destruct (Ascii.eqb a Js.CR && Ascii.eqb b Js.LF); [done|].
  apply cons_head_not_nil.
Qed.

Lemma join_cons sep x y l :
  Js.join sep (x :: y :: l) = x +:+ sep +:+ Js.join sep (y :: l).
Proof. reflexivity. Qed.

Lemma join_cons_head sep a l :
  l <> [] -> Js.join sep (Js.cons_head a l) = String a (Js.join sep l).
Proof. destruct l as [|x [|y l]]; [done | reflexivity | reflexivity]. Qed.

(** Splitting at CR LF and joining with CR LF gives the text back. *)
Lemma join_split_crlf s : Js.join Js.CRLF (Js.split_crlf s) = s.
Proof.
  assert (forall s, Js.join Js.CRLF (Js.split_crlf s) = s
                    /\ forall a, Js.join Js.CRLF (Js.split_crlf (String a s)) = String a s)
    as H; [|apply H].
  clear s. induction s as [|b rest [IH1 IH2]].
  - split; [reflexivity|]. intros a. reflexivity.
  - split; [apply IH2|]. intros a.
    change (Js.split_crlf (String a (String b rest)))
      with (if Ascii.eqb a Js.CR && Ascii.eqb b Js.LF then "" :: Js.split_crlf rest
            else Js.cons_head a (Js.split_crlf (String b rest))).
    destruct (Ascii.eqb a Js.CR && Ascii.eqb b Js.LF) eqn:E.
    + apply andb_true_iff in E as [Ea Eb].
      apply Ascii.eqb_eq in Ea, Eb. subst a b.
      destruct (Js.split_crlf rest) as [|x l] eqn:Hs; [by apply split_crlf_not_nil in Hs|].
      rewrite join_cons. rewrite IH1. reflexivity.
    + rewrite join_cons_head by apply split_crlf_not_nil. by rewrite IH2.
Qed.

(** A joined list of lines is cut at a blank line into the part up to it
    and the part after it. *)
Lemma join_blank_line sep xs after :
  Js.join sep (xs ++ "" :: after)
  = Js.join sep (xs ++ [""]) +:+ (match after with [] => "" | _ => sep end)
      +:+ Js.join sep after.
Proof.
  induction xs as [|x xs IH].
  - destruct after; reflexivity.
  - destruct xs as [|y xs].
    + simpl app in *. rewrite !join_cons. rewrite IH.
      change (Js.join sep [""]) with "". simpl. by rewrite !append_assoc.
    + change ((x :: y :: xs) ++ "" :: after)%list with (x :: (y :: xs) ++ "" :: after)%list.
      change ((x :: y :: xs) ++ [""])%list with (x :: (y :: xs) ++ [""])%list.
      simpl app in *. rewrite !join_cons in *. rewrite IH.
      by rewrite !append_assoc.
Qed.

Lemma obj_get_set_eq {V} k (v : V) o : Obj.get k (Obj.set k v o) = Some v.
Proof.
  induction o as [|[k' v'] o IH]; simpl.
  - by rewrite String.eqb_refl.
  - destruct (String.eqb k' k) eqn:E; simpl; rewrite E; done.
Qed.

Lemma obj_get_set_ne {V} k k' (v : V) o :
  k <> k' -> Obj.get k (Obj.set k' v o) = Obj.get k o.
Proof.
  intros Hne. induction o as [|[k0 v0] o IH]; simpl.
  - destruct (String.eqb_spec k' k); congruence.
  - destruct (String.eqb k0 k') eqn:E; simpl.
    + apply String.eqb_eq in E. subst k0.
      destruct (String.eqb_spec k' k); congruence.
    + destruct (String.eqb k0 k); done.
Qed.

End Strings.

(** ** Wire codec: parsing *)

Section Parsing.

Variable decode : string -> Result string.

Lemma bind_Ok {A B} (r : Result A) (k : A -> Result B) b :
  (r ≫= k) = Ok b -> exists a, r = Ok a /\ k a = Ok b.
Proof. destruct r as [a|e]; simpl; [eauto | discriminate]. Qed.

(** The header loop stops at the first empty line. *)
Lemma header_loop_stops hdrs after :
  forall i0 h h' i,
    header_loop (hdrs ++ "" :: after) i0 h = Ok (h', i) ->
    Forall (fun l => l <> "") hdrs ->
    i = (i0 + length hdrs)%nat.
Proof.
  induction hdrs as [|line hdrs IH]; intros i0 h h' i Hloop Hne.
  - simpl in Hloop. injection Hloop as _ <-. simpl. lia.
  - inversion Hne as [|? ? Hline Hrest]; subst.
    simpl in Hloop. apply nonempty_true in Hline. unfold nonempty in Hline.
    apply negb_true_iff in Hline. rewrite Hline in Hloop.
    apply bind_Ok in Hloop as (h1 & _ & Hloop).
    apply IH in Hloop; [|done]. simpl. lia.
Qed.

(** What a successful parse went through. *)
Lemma parseHttpRequest_Ok raw r :
  parseHttpRequest decode raw = Ok r ->
  exists requestLine rest i,
    Js.split_crlf raw = requestLine :: rest
    /\ requestLine <> ""
    /\ Js.split " " requestLine = [req_method r; req_fullPath r; req_version r]
    /\ header_loop rest 0 [] = Ok (req_headers r, i)
    /\ req_body r = Js.join Js.CRLF (skipn (i + 1) rest).
Proof.
  unfold parseHttpRequest.
  destruct (nonempty raw); simpl; [|discriminate].
  destruct (Js.split_crlf raw) as [|requestLine rest]; [discriminate|].
  destruct (nonempty requestLine) eqn:Hline; simpl; [|discriminate].
  destruct (Js.split " " requestLine) as [|method [|fullPath [|version [|x l]]]] eqn:Hparts;
    try discriminate.
  intros H. apply bind_Ok in H as (query & _ & H).
  apply bind_Ok in H as ([headers i] & Hloop & H).
  injection H as <-. simpl.
  exists requestLine, rest, i. apply nonempty_true in Hline. done.
Qed.

(** And the other way round: these steps going through is all a parse
    needs. *)
Lemma parseHttpRequest_succeeds raw requestLine rest method fullPath version query headers i :
  Js.split_crlf raw = requestLine :: rest ->
  requestLine <> "" ->
  Js.split " " requestLine = [method; fullPath; version] ->
  parse_query decode (match Js.indexOf fullPath "?" with
                      | Some q => Js.drop (q + 1) fullPath
                      | None => ""
                      end) = Ok query ->
  header_loop rest 0 [] = Ok (headers, i) ->
  parseHttpRequest decode raw
  = Ok (mkParsed method
          (match Js.indexOf fullPath "?" with
           | Some q => Js.take q fullPath
           | None => fullPath
           end)
          fullPath query version headers (Js.join Js.CRLF (skipn (i + 1) rest))).
Proof.
  intros Hsplit Hline Hparts Hq Hloop. unfold parseHttpRequest.
  assert (nonempty raw = true) as ->.
  { apply nonempty_true. intros ->. simpl in Hsplit. congruence. }
  apply nonempty_true in Hline. rewrite Hsplit. simpl. rewrite Hline. simpl.
  rewrite Hparts. rewrite Hq. simpl. rewrite Hloop. reflexivity.
Qed.

(** C7, as the code has it.  A request parses only when its request line is
    not empty and splits at single spaces into exactly three parts, which
    become the method, the request target and the version; a request whose
    request line does not split into exactly three parts fails with an
    "Invalid request" error.  The parts themselves may be empty. *)
Theorem request_line_three_parts raw :
  (forall r,
      parseHttpRequest decode raw = Ok r ->
      exists requestLine rest,
        Js.split_crlf raw = requestLine :: rest
        /\ requestLine <> ""
        /\ Js.split " " requestLine = [req_method r; req_fullPath r; req_version r])
  /\
  (forall requestLine rest,
      Js.split_crlf raw = requestLine :: rest ->
      length (Js.split " " requestLine) <> 3%nat ->
      exists e,
        parseHttpRequest decode raw = Throw e
        /\ err_name e = "Error"
        /\ Js.startsWith (err_message e) "Invalid request" = true).
Proof.
  split.
  - intros r H. apply parseHttpRequest_Ok in H as (requestLine & rest & i & H1 & H2 & H3 & _).
    eauto.
  - intros requestLine rest Hsplit Hlen. unfold parseHttpRequest. rewrite Hsplit.
    destruct (nonempty raw); simpl; [|eexists; repeat split; reflexivity].
    destruct (nonempty requestLine); simpl; [|eexists; repeat split; reflexivity].
    destruct (Js.split " " requestLine) as [|method [|fullPath [|version [|x l]]]];
      try (eexists; repeat split; reflexivity).
    simpl in Hlen. done.
Qed.

(** C8. When the lines of a request have an empty line after the request
    line and the request parses, the body is what follows the first empty
    line, joined again with CR LF; and it is the tail of the raw text itself,
    character for character. *)
Theorem body_is_text_after_blank_line raw requestLine hdrs after r :
  Js.split_crlf raw = requestLine :: (hdrs ++ "" :: after)%list ->
  Forall (fun l => l <> "") hdrs ->
  parseHttpRequest decode raw = Ok r ->
  req_body r = Js.join Js.CRLF after
  /\ raw = Js.join Js.CRLF (requestLine :: hdrs ++ [""])%list
             +:+ (match after with [] => "" | _ => Js.CRLF end)
             +:+ req_body r.
Proof.
  intros Hsplit Hne Hparse.
  apply parseHttpRequest_Ok in Hparse
    as (requestLine' & rest & i & Hsplit' & _ & _ & Hloop & Hbody).
  rewrite Hsplit in Hsplit'. injection Hsplit' as <- <-.
  apply header_loop_stops in Hloop; [|done]. simpl in Hloop. subst i.
  assert (req_body r = Js.join Js.CRLF after) as Hb.
  { rewrite Hbody. f_equal.
    replace (length hdrs + 1)%nat with (length hdrs + 1 + 0)%nat by lia.
    rewrite <- Nat.add_assoc.
    rewrite (skipn_app (length hdrs + 1)). rewrite skipn_all2 by lia.
    replace (length hdrs + 1 - length hdrs)%nat with 1%nat by lia. reflexivity. }
  split; [done|].
  rewrite Hb. rewrite <- (join_split_crlf raw) at 1. rewrite Hsplit.
  change (requestLine :: hdrs ++ "" :: after)%list
    with ((requestLine :: hdrs) ++ "" :: after)%list.
  apply join_blank_line.
Qed.

End Parsing.

(** A request line with two spaces in a row parses, with an empty request
    target and an empty path. *)
Lemma empty_path_parses :
  exists r,
    parseHttpRequest percent_decode ("GET  HTTP/1.1" +:+ Js.CRLF +:+ Js.CRLF) = Ok r
    /\ req_method r = "GET" /\ req_path r = "" /\ req_version r = "HTTP/1.1".
Proof. eexists. split; [reflexivity|]. simpl. done. Qed.

Lemma request_line_three_parts_witness :
  (exists requestLine rest,
      Js.split_crlf ("GET /a?b=1 HTTP/1.1" +:+ Js.CRLF +:+ Js.CRLF) = requestLine :: rest
      /\ requestLine <> ""
      /\ Js.split " " requestLine = ["GET"; "/a?b=1"; "HTTP/1.1"])
  /\ (exists e,
        parseHttpRequest percent_decode ("GET /a" +:+ Js.CRLF +:+ Js.CRLF) = Throw e
        /\ err_name e = "Error"
        /\ Js.startsWith (err_message e) "Invalid request" = true).
Proof.
  split.
  - apply (proj1 (request_line_three_parts percent_decode
                    ("GET /a?b=1 HTTP/1.1" +:+ Js.CRLF +:+ Js.CRLF))
             (mkParsed "GET" "/a" "/a?b=1" [("b", "1")] "HTTP/1.1" [] "")).
    reflexivity.
  - apply (proj2 (request_line_three_parts percent_decode ("GET /a" +:+ Js.CRLF +:+ Js.CRLF))
             "GET /a" [""; ""]).
    + reflexivity.
    + simpl. lia.
Defined.

(** A body with a blank line inside and one at its end is kept as it is. *)
Lemma body_is_text_after_blank_line_witness :
  let body := "a=1" +:+ Js.CRLF +:+ Js.CRLF +:+ "b=2" +:+ Js.CRLF in
  let raw := "POST /x HTTP/1.1" +:+ Js.CRLF +:+ "Host: h" +:+ Js.CRLF +:+ Js.CRLF +:+ body in
  exists r,
    parseHttpRequest percent_decode raw = Ok r
    /\ req_body r = body
    /\ req_body r = Js.join Js.CRLF ["a=1"; ""; "b=2"; ""].
Proof.
  intros body raw.
  exists (mkParsed "POST" "/x" "/x" [] "HTTP/1.1" [("host", ["h"])] body).
  split; [reflexivity|].
  split; [reflexivity|].
  apply (body_is_text_after_blank_line percent_decode raw "POST /x HTTP/1.1" ["Host: h"]
           ["a=1"; ""; "b=2"; ""]).
  - reflexivity.
  - repeat constructor; discriminate.
  - reflexivity.
Defined.

(** ** Wire codec: the query string *)

Section Query.

Variable decode : string -> Result string.

(** After the pairs have been taken in, a key other than [__proto__] is
    bound to the value of the last pair that carries it, and a key that no
    pair carries is as it was before. *)
Lemma parse_params_last_value params :
  forall query query',
    parse_params decode query params = Ok query' ->
    forall k, k <> "__proto__" ->
      Obj.get k query'
      = match last_value decode k params with
        | Some v => Some v
        | None => Obj.get k query
        end.
Proof.
  induction params as [|param params IH]; intros query query' Hparse k Hk.
  - simpl in Hparse. injection Hparse as <-. reflexivity.
  - simpl in Hparse. apply bind_Ok in Hparse as (query1 & Hparam & Hrest).
    rewrite (IH _ _ Hrest k Hk). simpl.
    destruct (last_value decode k params) as [v|]; [reflexivity|].
    unfold parse_param in Hparam. fold (param_key param) in Hparam.
    fold (param_value param) in Hparam.
    destruct (nonempty (param_key param)); [|by injection Hparam as <-].
    apply bind_Ok in Hparam as (k' & Hdk & Hparam). rewrite Hdk.
    apply bind_Ok in Hparam as (v & Hdv & Hparam). injection Hparam as <-.
    unfold query_assign.
    destruct (String.eqb_spec k' k) as [->|Hne].
    + apply String.eqb_neq in Hk. rewrite Hk. rewrite obj_get_set_eq.
      destruct (param_value param) as [raw|].
      * destruct (nonempty raw); [by rewrite Hdv | by injection Hdv as <-].
      * by injection Hdv as <-.
    + destruct (String.eqb k' "__proto__"); [reflexivity|].
      apply obj_get_set_ne. congruence.
Qed.

(** The query mapping of a parsed request: last value wins for every key
    except [__proto__]; a pair without [=] gives the empty string; a pair
    with an empty key is dropped. *)
Lemma query_last_value_wins raw r k :
  parseHttpRequest decode raw = Ok r ->
  k <> "__proto__" ->
  exists queryString,
    req_fullPath r = req_path r +:+ match Js.indexOf (req_fullPath r) "?" with
                                    | Some _ => "?" +:+ queryString
                                    | None => ""
                                    end
    /\ Obj.get k (req_query r)
       = if nonempty queryString then last_value decode k (Js.split "&" queryString)
         else None.
Proof.
  intros Hparse Hk. unfold parseHttpRequest in Hparse.
  destruct (nonempty raw); simpl in Hparse; [|discriminate].
  destruct (Js.split_crlf raw) as [|requestLine rest]; [discriminate|].
  destruct (nonempty requestLine); simpl in Hparse; [|discriminate].
  destruct (Js.split " " requestLine) as [|method [|fullPath [|version [|x l]]]];
    try discriminate.
  apply bind_Ok in Hparse as (query & Hq & Hparse).
  apply bind_Ok in Hparse as ([headers i] & _ & Hparse).
  injection Hparse as <-. simpl.
  assert (forall s q, Js.indexOf s "?" = Some q ->
                      s = Js.take q s +:+ "?" +:+ Js.drop (q + 1) s) as Hcut.
  { clear. induction s as [|a s IH]; intros q Hq; [discriminate|].
    simpl in Hq. destruct (Ascii.eqb a "?") eqn:E.
    - injection Hq as <-. apply Ascii.eqb_eq in E. subst a. reflexivity.
    - destruct (Js.indexOf s "?") as [q'|]; [|discriminate].
      injection Hq as <-. simpl. f_equal. by apply IH. }
  destruct (Js.indexOf fullPath "?") as [q|] eqn:Hidx.
  - exists (Js.drop (q + 1) fullPath). split; [by apply Hcut|].
    unfold parse_query in Hq.
    destruct (nonempty (Js.drop (q + 1) fullPath)).
    + rewrite (parse_params_last_value _ _ _ Hq k Hk).
      by destruct (last_value decode k _).
    + by injection Hq as <-.
  - exists "". split; [by rewrite append_nil_r|].
    unfold parse_query in Hq. simpl in Hq. by injection Hq as <-.
Qed.

End Query.

(** C9 at the key [__proto__].  The query string [__proto__=1&__proto__=2]
    carries the key twice, the last time with the value 2; the request
    parses, and the query mapping has no binding for the key. *)
Theorem proto_key_is_not_bound :
  let raw := "GET /?__proto__=1&__proto__=2 HTTP/1.1" +:+ Js.CRLF +:+ Js.CRLF in
  exists r,
    parseHttpRequest percent_decode raw = Ok r
    /\ last_value percent_decode "__proto__" (Js.split "&" "__proto__=1&__proto__=2")
       = Some "2"
    /\ Obj.get "__proto__" (req_query r) = None
    /\ req_query r = [].
Proof. eexists. split; [reflexivity|]. simpl. done. Qed.

(** ** Wire codec: serialising *)

Section Serialising.

(** The error envelopes of the pipeline always serialise. *)
Lemma format_error_response status message :
  In status [400; 413; 500; 503; 504] ->
  exists response, formatHttpResponse (createErrorResponse status message) = Ok response.
Proof.
  simpl. intros [<-|[<-|[<-|[<-|[<-|[]]]]]]; eexists; reflexivity.
Qed.

Lemma normalize_headers_Throw entries :
  forall acc e,
    normalize_headers acc entries = Throw e ->
    e = TypeError "normalizedHeaders[lowerName].push is not a function".
Proof.
  induction entries as [|[name values] entries IH]; intros acc e H; [discriminate|].
  simpl in H.
  destruct (Obj.get (Js.toLowerCase name) acc); simpl in H.
  - by apply IH in H.
  - destruct (Obj.inherited (Js.toLowerCase name)); simpl in H.
    + by injection H as <-.
    + by apply IH in H.
Qed.

(** Whatever [formatHttpResponse] throws is one of four errors. *)
Lemma formatHttpResponse_Throw responseJson e :
  formatHttpResponse responseJson = Throw e -> In e format_errors.
Proof.
  unfold formatHttpResponse, format_errors.
  destruct responseJson; try (intros [= <-]; simpl; tauto).
  match goal with |- context [if ?c then _ else _] => destruct c end.
  - intros [= <-]. simpl; tauto.
  - destruct (Object_entries _) as [entries|e'] eqn:He; simpl.
    + destruct (normalize_headers [] entries) as [nh|e''] eqn:Hn; simpl; [discriminate|].
      intros [= <-]. apply normalize_headers_Throw in Hn. subst. simpl; tauto.
    + intros [= <-]. unfold Object_entries in He.
      destruct (match prop (JObj props) "headers" with Some h => h | None => JObj [] end);
        try discriminate.
      injection He as <-. simpl; tauto.
Qed.

(** An envelope with a preamble field missing is rejected. *)
Lemma formatHttpResponse_missing_field responseJson k :
  In k ["version"; "status"; "reason"] ->
  preamble_field responseJson k = None ->
  exists e,
    formatHttpResponse responseJson = Throw e
    /\ err_name e = "Error"
    /\ Js.startsWith (err_message e) "Invalid response" = true.
Proof.
  intros Hk Hmiss. unfold formatHttpResponse.
  destruct responseJson; try (eexists; repeat split; reflexivity).
  unfold preamble_field in Hmiss.
  destruct (prop (JObj props) "preamble") as [p|]; simpl;
    [|eexists; repeat split; reflexivity].
  simpl in Hk. destruct Hk as [<-|[<-|[<-|[]]]]; rewrite Hmiss; simpl;
    rewrite ?orb_true_r; simpl; eexists; repeat split; reflexivity.
Qed.

End Serialising.

(** ** The request pipeline *)

Section Pipeline.

Ltac unfold_stmt :=
  unfold mbind, stmt_bind, mret, stmt_ret, try_catch, try_finally, return_, throw, eval,
    start_query, increment, decrement in *.

Lemma counter_values_app l1 l2 :
  counter_values (l1 ++ l2) = (counter_values l1 ++ counter_values l2)%list.
Proof. unfold counter_values. apply flat_map_app. Qed.

Lemma stateless_ret {A} (a : A) : stateless (mret a : Stmt A).
Proof. by exists (Normal a). Qed.

Lemma stateless_return {A} (r : Result string) : stateless (return_ r : Stmt A).
Proof. destruct r as [s|e]; [by exists (Returned s) | by exists (Thrown e)]. Qed.

Lemma stateless_throw {A} (e : JsError) : stateless (throw e : Stmt A).
Proof. by exists (Thrown e). Qed.

Lemma stateless_bind {A B} (m : Stmt A) (k : A -> Stmt B) :
  stateless m -> (forall a, stateless (k a)) -> stateless (m ≫= k).
Proof.
  intros [c Hm] Hk. destruct c as [a|r|e].
  - destruct (Hk a) as [c' Hc']. exists c'. intros st. unfold_stmt. by rewrite Hm, Hc'.
  - exists (Returned r). intros st. unfold_stmt. by rewrite Hm.
  - exists (Thrown e). intros st. unfold_stmt. by rewrite Hm.
Qed.

Lemma stateless_collect_blocks content :
  forall fullResponse responseSize,
    stateless (collect_blocks content fullResponse responseSize).
Proof.
  induction content as [|[text|] content IH]; intros fullResponse responseSize; simpl.
  - apply stateless_ret.
  - destruct (_ >? _); [apply stateless_return | apply IH].
  - apply IH.
Qed.

Lemma stateless_collect_message message fullResponse responseSize :
  stateless (collect_message message fullResponse responseSize).
Proof.
  destruct message as [content|subtype result|]; simpl.
  - apply stateless_collect_blocks.
  - repeat match goal with
           | |- stateless (if ?c then _ else _) => destruct c
           end; first [apply stateless_return | apply stateless_ret].
  - apply stateless_ret.
Qed.

Lemma stateless_collect messages failure :
  forall fullResponse responseSize,
    stateless (collect messages failure fullResponse responseSize).
Proof.
  induction messages as [|message messages IH]; intros fullResponse responseSize; simpl.
  - destruct failure; [apply stateless_throw | apply stateless_ret].
  - apply stateless_bind; [apply stateless_collect_message|].
    intros [f s]. apply IH.
Qed.

Lemma stateless_quiet {A} (m : Stmt A) : stateless m -> quiet m.
Proof.
  intros [c Hm] st. exists c, []. rewrite Hm, app_nil_r. by destruct st.
Qed.

Lemma quiet_bind {A B} (m : Stmt A) (k : A -> Stmt B) :
  quiet m -> (forall a, quiet (k a)) -> quiet (m ≫= k).
Proof.
  intros Hm Hk st. destruct (Hm st) as (c & new & Hc & Hnew).
  unfold_stmt. rewrite Hc. destruct c as [a|r|e]; [|by eauto|by eauto].
  destruct (Hk a (mkGateway (concurrentRequests st) (events st ++ new)))
    as (c' & new' & Hc' & Hnew').
  simpl in Hc'. exists c', (new ++ new')%list. rewrite Hc', <- app_assoc.
  split; [done|]. by rewrite counter_values_app, Hnew, Hnew'.
Qed.

Lemma quiet_try_catch {A} (body : Stmt A) (handler : JsError -> Stmt A) :
  quiet body -> (forall e, quiet (handler e)) -> quiet (try_catch body handler).
Proof.
  intros Hb Hh st. destruct (Hb st) as (c & new & Hc & Hnew).
  unfold_stmt. rewrite Hc. destruct c as [a|r|e]; [by eauto|by eauto|].
  destruct (Hh e (mkGateway (concurrentRequests st) (events st ++ new)))
    as (c' & new' & Hc' & Hnew').
  simpl in Hc'. exists c', (new ++ new')%list. rewrite Hc', <- app_assoc.
  split; [done|]. by rewrite counter_values_app, Hnew, Hnew'.
Qed.

Lemma quiet_start_query prompt : quiet (start_query prompt).
Proof. intros st. exists (Normal tt), [QueryStarted prompt]. done. Qed.

Lemma quiet_delegate env prompt : quiet (delegate env prompt).
Proof.
  unfold delegate. apply quiet_try_catch.
  - apply quiet_bind; [apply quiet_start_query|]. intros _.
    apply quiet_bind; [apply stateless_quiet, stateless_collect|].
    intros [f s]. apply stateless_quiet, stateless_return.
  - intros e. destruct (_ || _); apply stateless_quiet;
      [apply stateless_return | apply stateless_throw].
Qed.

(** The guarded part of [processRequest] is quiet and always completes by
    returning a response. *)
Lemma guarded_request_returns env rawRequest (st : Gateway) :
  exists response new,
    guarded_request env rawRequest st
    = (Returned response, mkGateway (concurrentRequests st) (events st ++ new)%list)
    /\ counter_values new = [].
Proof.
  unfold guarded_request.
  set (body := (_ ← eval _; _) : Stmt Empty_set).
  assert (quiet body) as Hq.
  { subst body. apply quiet_bind.
    - apply stateless_quiet. destruct (parseHttpRequest _ _) as [p|e];
        [by exists (Normal p) | by exists (Thrown e)].
    - intros parsed. simpl. destruct (_ >? _);
        [apply stateless_quiet, stateless_return | apply quiet_delegate]. }
  destruct (Hq st) as (c & new & Hc & Hnew).
  unfold try_catch. rewrite Hc. destruct c as [[]|r|e]; [by eauto|].
  destruct (_ && _).
  - destruct (format_error_response 400 "Malformed HTTP request") as [r Hr];
      [simpl; tauto|].
    unfold return_. rewrite Hr. by exists r, new.
  - destruct (format_error_response 500 "Internal server error") as [r Hr];
      [simpl; tauto|].
    unfold return_. rewrite Hr. by exists r, new.
Qed.

(** How every call of [processRequest] goes: at capacity it returns the 503
    response and touches nothing; below capacity it counts up, does its work
    without touching the counter, counts down, and returns a response. *)
Lemma processRequest_shape env rawRequest st :
  (MAX_CONCURRENT_REQUESTS <= concurrentRequests st
   /\ exists response,
       formatHttpResponse (createErrorResponse 503 "Server busy, please try again later")
       = Ok response
       /\ processRequest env rawRequest st = (Returned response, st))
  \/
  (concurrentRequests st < MAX_CONCURRENT_REQUESTS
   /\ exists response work,
       processRequest env rawRequest st
       = (Returned response,
          mkGateway (concurrentRequests st)
            (events st ++ Incremented (concurrentRequests st + 1) :: work
               ++ [Decremented (concurrentRequests st)])%list)
       /\ counter_values work = []).
Proof.
  unfold processRequest.
  destruct (concurrentRequests st >=? MAX_CONCURRENT_REQUESTS) eqn:Hcap.
  - left. split; [lia|].
    destruct (format_error_response 503 "Server busy, please try again later") as [r Hr];
      [simpl; tauto|].
    exists r. split; [done|]. unfold return_. by rewrite Hr.
  - right. split; [lia|].
    unfold mbind, stmt_bind, increment, try_finally, decrement.
    match goal with
    | |- context [guarded_request env rawRequest ?s] =>
        destruct (guarded_request_returns env rawRequest s) as (response & work & Hb & Hw)
    end.
    rewrite Hb. simpl. exists response, work. split; [|done].
    replace (concurrentRequests st + 1 - 1) with (concurrentRequests st) by lia.
    by rewrite <- !app_assoc.
Qed.

End Pipeline.

Section PipelineClaims.

Lemma increments_app l1 l2 : increments (l1 ++ l2) = (increments l1 + increments l2)%nat.
Proof. unfold increments. by rewrite List.filter_app, length_app. Qed.

Lemma decrements_app l1 l2 : decrements (l1 ++ l2) = (decrements l1 + decrements l2)%nat.
Proof. unfold decrements. by rewrite List.filter_app, length_app. Qed.

Lemma queries_app l1 l2 : queries (l1 ++ l2) = (queries l1 + queries l2)%nat.
Proof. unfold queries. by rewrite List.filter_app, length_app. Qed.

(** Events that carry no counter value are neither increments nor
    decrements. *)
Lemma no_counter_values work :
  counter_values work = [] -> increments work = 0%nat /\ decrements work = 0%nat.
Proof.
  induction work as [|[v|v|p] work IH]; simpl; [done|discriminate|discriminate|].
  intros H. apply IH in H. done.
Qed.

(** C5. At capacity, [processRequest] returns the 503 response, whose
    status line is "HTTP/1.1 503 Service Unavailable", and leaves the gateway
    state as it was: the counter is not changed and no delegate query is
    started. *)
Theorem at_capacity_service_unavailable env rawRequest st :
  MAX_CONCURRENT_REQUESTS <= concurrentRequests st ->
  exists response,
    processRequest env rawRequest st = (Returned response, st)
    /\ formatHttpResponse (createErrorResponse 503 "Server busy, please try again later")
       = Ok response
    /\ status_line response = "HTTP/1.1 503 Service Unavailable"
    /\ concurrentRequests (processRequest env rawRequest st).2 = concurrentRequests st
    /\ queries (events (processRequest env rawRequest st).2) = queries (events st).
Proof.
  intros Hcap.
  destruct (processRequest_shape env rawRequest st) as [(_ & r & Hr & Hp)|[Hlt _]]; [|lia].
  exists r. rewrite Hp. simpl. repeat split; try done.
  vm_compute in Hr. injection Hr as <-. reflexivity.
Qed.

Lemma at_capacity_service_unavailable_witness :
  let env := scripted (createErrorResponse 404 "No such user") false in
  let st := mkGateway 10 [] in
  exists response,
    processRequest env ("GET / HTTP/1.1" +:+ Js.CRLF +:+ Js.CRLF) st = (Returned response, st)
    /\ status_line response = "HTTP/1.1 503 Service Unavailable".
Proof.
  intros env st.
  destruct (at_capacity_service_unavailable env ("GET / HTTP/1.1" +:+ Js.CRLF +:+ Js.CRLF) st)
    as (response & Hp & _ & Hs & _).
  - unfold MAX_CONCURRENT_REQUESTS. simpl. lia.
  - exists response. split; [exact Hp | exact Hs].
Defined.

(** C6. Every call of [processRequest] returns a response, with the counter
    back at the value it had: either the call was turned away at capacity and
    never touched the counter, or it incremented the counter once, first of
    all, and decremented it once, last of all, whichever way it left.  No
    value the counter takes is above the ceiling.  The same holds for any
    number of requests served one after the other. *)
Theorem counter_released_on_every_path :
  (forall env rawRequest st,
      exists response new,
        processRequest env rawRequest st
        = (Returned response, mkGateway (concurrentRequests st) (events st ++ new)%list)
        /\ (new = []
            \/ exists work,
                new = (Incremented (concurrentRequests st + 1) :: work
                         ++ [Decremented (concurrentRequests st)])%list
                /\ counter_values work = [])
        /\ increments new = decrements new
        /\ (increments new <= 1)%nat
        /\ Forall (fun v => v <= MAX_CONCURRENT_REQUESTS) (counter_values new))
  /\
  (forall requests st,
      exists new,
        (serve requests st).2
        = mkGateway (concurrentRequests st) (events st ++ new)%list
        /\ increments new = decrements new
        /\ Forall (fun v => v <= MAX_CONCURRENT_REQUESTS) (counter_values new)).
Proof.
  assert (forall env rawRequest st,
      exists response new,
        processRequest env rawRequest st
        = (Returned response, mkGateway (concurrentRequests st) (events st ++ new)%list)
        /\ (new = []
            \/ exists work,
                new = (Incremented (concurrentRequests st + 1) :: work
                         ++ [Decremented (concurrentRequests st)])%list
                /\ counter_values work = [])
        /\ increments new = decrements new
        /\ (increments new <= 1)%nat
        /\ Forall (fun v => v <= MAX_CONCURRENT_REQUESTS) (counter_values new)) as Hone.
  { intros env rawRequest st.
    destruct (processRequest_shape env rawRequest st)
      as [(_ & r & _ & Hp)|(Hlt & r & work & Hp & Hw)].
    - exists r, []. rewrite Hp, app_nil_r. destruct st. simpl.
      split; [done|]. split; [by left|]. split; [done|]. split; [|constructor].
      unfold increments. simpl. lia.
    - exists r, (Incremented (concurrentRequests st + 1) :: work
                   ++ [Decremented (concurrentRequests st)])%list.
      destruct (no_counter_values work Hw) as [Hi Hd].
      split; [done|]. split; [right; by exists work|].
      change (Incremented (concurrentRequests st + 1) :: work
                ++ [Decremented (concurrentRequests st)])%list
        with ([Incremented (concurrentRequests st + 1)] ++ work
                ++ [Decremented (concurrentRequests st)])%list.
      rewrite !increments_app, !decrements_app, !counter_values_app, Hi, Hd, Hw.
      simpl. unfold increments, decrements. simpl. split; [lia|]. split; [lia|].
      repeat constructor; lia. }
  split; [exact Hone|].
  induction requests as [|[env rawRequest] requests IH]; intros st.
  - exists []. simpl. rewrite app_nil_r. destruct st. repeat split. constructor.
  - simpl. destruct (Hone env rawRequest st) as (r & new1 & Hp & _ & Hbal & _ & Hle).
    rewrite Hp.
    destruct (IH (mkGateway (concurrentRequests st) (events st ++ new1)))
      as (new2 & Hs & Hbal2 & Hle2).
    destruct (serve requests _) as [cs st2]. simpl in *. subst st2.
    exists (new1 ++ new2)%list. rewrite app_assoc.
    split; [done|]. rewrite increments_app, decrements_app, counter_values_app.
    split; [lia|]. by apply Forall_app.
Qed.

(** What the delegation answers when the text it collected yields an
    envelope that the serialiser rejects. *)
Lemma delegate_invalid_envelope env prompt st fullResponse size e :
  let run := env_query env prompt in
  (forall st', collect (run_messages run) (run_failure run) "" 0 st'
               = (Normal (fullResponse, size), st')) ->
  formatHttpResponse (extractJsonResponse (env_candidates env) fullResponse) = Throw e ->
  exists st1,
    delegate env prompt st
    = (if run_aborted run
       then match formatHttpResponse (createErrorResponse 504 "Gateway timeout") with
            | Ok reply => Returned reply
            | Throw e' => Thrown e'
            end
       else Thrown e, st1).
Proof.
  intros run Hc Hthrow.
  unfold delegate, try_catch, mbind, stmt_bind, start_query. fold run.
  rewrite Hc. unfold return_ at 1. rewrite Hthrow.
  apply formatHttpResponse_Throw in Hthrow.
  assert (String.eqb (err_name e) "AbortError" = false) as ->.
  { simpl in Hthrow. destruct Hthrow as [<-|[<-|[<-|[<-|[]]]]]; reflexivity. }
  rewrite orb_false_l. destruct (run_aborted run).
  - unfold return_. destruct (formatHttpResponse _); eauto.
  - unfold throw. eauto.
Qed.

(** What the guarded part of [processRequest] answers when the envelope
    that reaches the serialiser is rejected by it. *)
Lemma guarded_request_invalid_envelope env rawRequest st responseJson e :
  delegated_envelope env rawRequest = Some responseJson ->
  formatHttpResponse responseJson = Throw e ->
  exists reply,
    (guarded_request env rawRequest st).1 = Returned reply
    /\ formatHttpResponse
         (if deadline_fired env rawRequest
          then createErrorResponse 504 "Gateway timeout"
          else createErrorResponse 500 "Internal server error")
       = Ok reply.
Proof.
  unfold delegated_envelope, deadline_fired.
  destruct (parseHttpRequest (env_decode env) rawRequest) as [parsed|] eqn:Hparse;
    [|discriminate].
  cbv zeta.
  destruct (Js.len (env_prompt env parsed) >? MAX_PROMPT_SIZE) eqn:Hsize; [discriminate|].
  destruct (stateless_collect (run_messages (env_query env (env_prompt env parsed)))
              (run_failure (env_query env (env_prompt env parsed))) "" 0) as [c Hc].
  rewrite Hc. destruct c as [[fullResponse size]| |]; try discriminate.
  intros [= <-] Hthrow.
  unfold guarded_request, try_catch, mbind, stmt_bind, eval.
  rewrite Hparse. cbv zeta. rewrite Hsize.
  destruct (delegate_invalid_envelope env (env_prompt env parsed) st fullResponse size e
              Hc Hthrow) as [st1 ->].
  destruct (format_error_response 504 "Gateway timeout") as [r504 H504]; [simpl; tauto|].
  destruct (format_error_response 500 "Internal server error") as [r500 H500];
    [simpl; tauto|].
  destruct (run_aborted _).
  - rewrite H504. by exists r504.
  - apply formatHttpResponse_Throw in Hthrow.
    assert (nonempty (err_message e) && Js.includes (err_message e) "Invalid request"
            = false) as ->.
    { simpl in Hthrow. destruct Hthrow as [<-|[<-|[<-|[<-|[]]]]]; reflexivity. }
    unfold return_. rewrite H500. by exists r500.
Qed.

(** C2, as the code has it.  An envelope whose preamble lacks a version, a
    status or a reason is rejected by [formatHttpResponse]; and when the
    envelope that the delegate's output yields is rejected, the reply of
    [processRequest] is a generic error envelope in its place: 500 Internal
    Server Error, or 504 Gateway Timeout when the deadline of the delegation
    has fired. *)
Theorem invalid_envelope_is_replaced :
  (forall responseJson k,
      In k ["version"; "status"; "reason"] ->
      preamble_field responseJson k = None ->
      exists e,
        formatHttpResponse responseJson = Throw e
        /\ err_name e = "Error"
        /\ Js.startsWith (err_message e) "Invalid response" = true)
  /\
  (forall env rawRequest st responseJson e,
      concurrentRequests st < MAX_CONCURRENT_REQUESTS ->
      delegated_envelope env rawRequest = Some responseJson ->
      formatHttpResponse responseJson = Throw e ->
      exists reply,
        (processRequest env rawRequest st).1 = Returned reply
        /\ formatHttpResponse
             (if deadline_fired env rawRequest
              then createErrorResponse 504 "Gateway timeout"
              else createErrorResponse 500 "Internal server error")
           = Ok reply).
Proof.
  split; [apply formatHttpResponse_missing_field|].
  intros env rawRequest st responseJson e Hlt Henv Hthrow.
  unfold processRequest.
  assert ((concurrentRequests st >=? MAX_CONCURRENT_REQUESTS) = false) as -> by lia.
  unfold mbind, stmt_bind, increment, try_finally, decrement.
  match goal with
  | |- context [guarded_request env rawRequest ?s] =>
      destruct (guarded_request_invalid_envelope env rawRequest s responseJson e Henv Hthrow)
        as (reply & Hg & Hr);
      destruct (guarded_request env rawRequest s) as [c st1]
  end.
  simpl in *. subst c. by exists reply.
Qed.

(** The delegate answers with an envelope that has no status, and the
    deadline has not fired: the serialiser rejects the envelope and the reply
    is the generic 500. *)
Lemma invalid_envelope_is_replaced_witness :
  let envelope := JObj [("preamble", JObj [("version", JStr "HTTP/1.1");
                                           ("reason", JStr "OK")])] in
  let env := scripted envelope false in
  let rawRequest := "GET / HTTP/1.1" +:+ Js.CRLF +:+ Js.CRLF in
  (exists e, formatHttpResponse envelope = Throw e
             /\ err_name e = "Error"
             /\ Js.startsWith (err_message e) "Invalid response" = true)
  /\ (exists reply,
        (processRequest env rawRequest (mkGateway 0 [])).1 = Returned reply
        /\ formatHttpResponse (createErrorResponse 500 "Internal server error") = Ok reply).
Proof.
  intros envelope env rawRequest. split.
  - apply (proj1 invalid_envelope_is_replaced envelope "status").
    + simpl. tauto.
    + reflexivity.
  - apply (proj2 invalid_envelope_is_replaced env rawRequest (mkGateway 0 []) envelope
             (Error "Invalid response: missing or incomplete preamble")).
    + unfold MAX_CONCURRENT_REQUESTS. simpl. lia.
    + reflexivity.
    + reflexivity.
Defined.

(** The same answer of the delegate when the deadline has fired: the reply
    is a 504, not the generic 500. *)
Lemma invalid_envelope_after_deadline_gets_504 :
  let envelope := JObj [("preamble", JObj [("version", JStr "HTTP/1.1");
                                           ("reason", JStr "OK")])] in
  let env := scripted envelope true in
  let rawRequest := "GET / HTTP/1.1" +:+ Js.CRLF +:+ Js.CRLF in
  delegated_envelope env rawRequest = Some envelope
  /\ preamble_field envelope "status" = None
  /\ exists reply,
      (processRequest env rawRequest (mkGateway 0 [])).1 = Returned reply
      /\ status_line reply = "HTTP/1.1 504 Gateway Timeout"
      /\ status_line reply <> "HTTP/1.1 500 Internal Server Error".
Proof.
  intros envelope env rawRequest.
  split; [reflexivity|]. split; [reflexivity|].
  eexists. split; [reflexivity|]. split; [reflexivity|]. discriminate.
Qed.

End PipelineClaims.

(** ** Sandbox path validator *)

(** C1 at a sibling of the root.  With the storage directory [/srv/files],
    the path [../files2/secret] resolves to [/srv/files2/secret], which is
    not inside [/srv/files]; its text begins with the text of the root, and
    the validator lets it through. *)
Theorem sibling_of_root_is_accepted :
  let realpath := fun p : string =>
    if String.eqb p "/srv/files2/secret" then Real p
    else if String.eqb p "/srv/files" then Real p
    else ENOENT in
  Js.includes "../files2/secret" ".." = true
  /\ Path.resolve "/app" ["/srv/files"; "../files2/secret"] = "/srv/files2/secret"
  /\ inside "/srv/files" "/srv/files2/secret" = false
  /\ validateAndResolvePath "/app" "/srv/files" realpath "../files2/secret"
     = Ok "/srv/files2/secret".
Proof. intros realpath. repeat split; reflexivity. Qed.

Section SandboxGuarantee.

Variable cwd : string.
Variable FILE_STORAGE_DIR : string.
Variable realpath : string -> Realpath.

(** What the validator does ensure: the lower-cased text of the path it
    hands back begins with the lower-cased text of the root. *)
Lemma validated_path_begins_with_root filepath p :
  validateAndResolvePath cwd FILE_STORAGE_DIR realpath filepath = Ok p ->
  Js.startsWith (Js.toLowerCase p) (SAFE_BASE_DIR FILE_STORAGE_DIR) = true.
Proof.
  unfold validateAndResolvePath.
  destruct (Path.isAbsolute filepath); [discriminate|].
  destruct (Js.includes filepath _); [discriminate|].
  destruct (_ || _); [discriminate|].
  destruct (Js.startsWith (Js.toLowerCase (Path.normalize _)) _) eqn:Hn; simpl;
    [|discriminate].
  destruct (realpath (Path.normalize _)) as [realPath| |e].
  - destruct (Js.startsWith (Js.toLowerCase realPath) _) eqn:Hr; simpl; [|discriminate].
    by intros [= <-].
  - destruct (realpath (Path.dirname _)) as [parent| |e]; try discriminate.
    destruct (Js.startsWith (Js.toLowerCase parent) _); simpl; [|discriminate].
    by intros [= <-].
  - discriminate.
Qed.

End SandboxGuarantee.

(** ** Statement-execution tool *)

Section SqliteClaims.

Variable Statement : Type.
Variable getDatabase : Result unit.
Variable prepare : string -> Result Statement.
Variable stmt_all : Statement -> list JsVal -> Result (list JsVal).
Variable stmt_run : Statement -> list JsVal -> Result (Z * Z).

(** C10. When the engine raises, the tool hands back the text of
    [{success: false, error: "Database error"}] with the error flag set, and
    nothing else: the same text whatever the engine's error was. *)
Theorem engine_error_is_generic sqlQuery params :
  engine_raises Statement getDatabase prepare stmt_all stmt_run sqlQuery params ->
  sqliteTool Statement getDatabase prepare stmt_all stmt_run sqlQuery params
  = mkToolResult
      (Json.stringify2 (JObj [("success", JBool false); ("error", JStr "Database error")]))
      true.
Proof.
  unfold engine_raises, sqliteTool. intros Hraise.
  destruct (sqlite_try _ _ _ _ _ sqlQuery params) as [payload|e] eqn:Htry; [|reflexivity].
  exfalso. unfold sqlite_try in Htry.
  destruct (Js.len sqlQuery >? MAX_QUERY_SIZE); [discriminate|].
  apply bind_Ok in Htry as ([] & Hdb & Htry).
  destruct (isReadOnlyQuery sqlQuery).
  - apply bind_Ok in Htry as (stmt & Hprep & Htry).
    apply bind_Ok in Htry as (rows & Hall & _).
    destruct Hraise as [[e He]|[[e He]|(stmt' & e & Hp & He)]]; congruence.
  - apply bind_Ok in Htry as (stmt & Hprep & Htry).
    apply bind_Ok in Htry as (res & Hrun & _).
    destruct Hraise as [[e He]|[[e He]|(stmt' & e & Hp & He)]]; congruence.
Qed.

End SqliteClaims.

(** The engine rejects a statement with a syntax error message of its own;
    the tool answers with the generic text. *)
Lemma engine_error_is_generic_witness :
  let prepare := fun q : string =>
    (Throw (mkError "SqliteError" ("near " +:+ q +:+ ": syntax error")) : Result unit) in
  sqliteTool unit (Ok tt) prepare (fun _ _ => Ok []) (fun _ _ => Ok (0, 0)) "SELEC 1" []
  = mkToolResult
      (Json.stringify2 (JObj [("success", JBool false); ("error", JStr "Database error")]))
      true.
Proof.
  intros prepare.
  apply (engine_error_is_generic unit (Ok tt) prepare (fun _ _ => Ok []) (fun _ _ => Ok (0, 0))).
  right. left. eexists. reflexivity.
Defined.

(** ** Worked requests *)

(** A GET without a body: the structured request that the parser builds. *)
Example parse_get_users :
  parseHttpRequest percent_decode
    ("GET /api/users HTTP/1.1" +:+ Js.CRLF +:+ "Host: x" +:+ Js.CRLF +:+ Js.CRLF)
  = Ok (mkParsed "GET" "/api/users" "/api/users" [] "HTTP/1.1" [("host", ["x"])] "").
Proof. reflexivity. Qed.

(** Repeated keys, a key without a value, an escaped key and an empty key
    in one query string. *)
Example parse_query_pairs :
  parse_query percent_decode "a=1&b&a=2&%61=3&=x&c=d=e"
  = Ok [("a", "3"); ("b", ""); ("c", "d")].
Proof. reflexivity. Qed.

(** A header whose name is inherited from [Object.prototype] makes the
    parser throw a [TypeError]. *)
Example parse_constructor_header :
  parseHttpRequest percent_decode
    ("GET / HTTP/1.1" +:+ Js.CRLF +:+ "Constructor: x" +:+ Js.CRLF +:+ Js.CRLF)
  = Throw (TypeError "headers[headerName].push is not a function").
Proof. reflexivity. Qed.

(** Header names are merged without regard to case and printed capitalised;
    a supplied Content-Length is kept. *)
Example format_merges_headers :
  formatHttpResponse
    (JObj [ ("preamble", JObj [ ("version", JStr "HTTP/1.1"); ("status", JNum 200);
                                ("reason", JStr "OK") ]);
            ("headers", JObj [ ("x-a-b", JStr "1"); ("X-A-B", JArr [JNum 2; JStr "3"]) ]);
            ("body", JStr "hi") ])
  = Ok (Js.join Js.CRLF
          ["HTTP/1.1 200 OK"; "X-A-B: 1"; "X-A-B: 2"; "X-A-B: 3"; "Content-Length: 2";
           ""; "hi"]).
Proof. reflexivity. Qed.

(** A write to [../secret] is denied with the policy's own words. *)
Example validate_parent_secret :
  validateAndResolvePath "/app" "/srv/files" (fun p => Real p) "../secret"
  = Throw (Error "Access denied: Path is outside allowed directory").
Proof. reflexivity. Qed.

(** A new file directly under the root: its parent exists, the normalised
    path is returned. *)
Example validate_new_file :
  validateAndResolvePath "/app" "/srv/files"
    (fun p => if String.eqb p "/srv/files" then Real p else ENOENT) "a/../notes.txt"
  = Ok "/srv/files/notes.txt".
Proof. reflexivity. Qed.

(** A link inside the root that points outside it is refused. *)
Example validate_symlink_escape :
  validateAndResolvePath "/app" "/srv/files"
    (fun p => if String.eqb p "/srv/files/link" then Real "/etc/passwd" else Real p) "link"
  = Throw (Error "Access denied: Symlink points outside allowed directory").
Proof. reflexivity. Qed.

(** A request that the delegate answers well, from arrival to reply. *)
Example pipeline_round_trip :
  let envelope := createErrorResponse 404 "No such user" in
  let env := scripted envelope false in
  exists reply prompt,
    processRequest env ("GET /u/7 HTTP/1.1" +:+ Js.CRLF +:+ Js.CRLF) (mkGateway 3 [])
    = (Returned reply,
       mkGateway 3 [Incremented 4; QueryStarted prompt; Decremented 3])
    /\ status_line reply = "HTTP/1.1 404 Not Found".
Proof. intros envelope env. eexists _, _. split; reflexivity. Qed.

(* ===================================================================== *)
(** * Part III: further properties of the code                             *)
(* ===================================================================== *)

(** ** Rate limiter: the table as a whole *)

Section RateTable.

Implicit Types (m : gmap string RateEntry) (ip : string) (now : Z).

(** Checks of other addresses, however many, leave the entry of an address
    as it is. *)
Theorem checks_of_others_are_not_observed ip ops m :
  Forall (fun op => match op with
                    | CheckOp ip' _ => ip' <> ip
                    | SweepOp _ => False
                    end) ops ->
  run_table ops m !! ip = m !! ip.
Proof.
  unfold run_table. revert m.
  induction ops as [|[ip' now|now] ops IH]; intros m Hops; simpl; [done| |].
  - inversion Hops as [|? ? Hne Hrest]; subst.
    rewrite IH by done. apply checkRateLimit_frame. congruence.
  - by inversion Hops.
Qed.

Lemma checks_of_others_are_not_observed_witness :
  run_table [CheckOp "10.0.0.2" 5; CheckOp "10.0.0.3" 70000]
    ({[ "10.0.0.1" := mkRateEntry 7 100 ]} : gmap string RateEntry) !! "10.0.0.1"
  = ({[ "10.0.0.1" := mkRateEntry 7 100 ]} : gmap string RateEntry) !! "10.0.0.1".
Proof.
  apply (checks_of_others_are_not_observed "10.0.0.1"
           [CheckOp "10.0.0.2" 5; CheckOp "10.0.0.3" 70000]).
  repeat constructor; discriminate.
Defined.

Lemma checkRateLimit_keeps_range ip now m :
  map_Forall (fun _ d => 1 <= count d <= RATE_LIMIT_MAX_REQUESTS) m ->
  map_Forall (fun _ d => 1 <= count d <= RATE_LIMIT_MAX_REQUESTS) (checkRateLimit ip now m).2.
Proof.
  intros Hm. unfold checkRateLimit.
  destruct (m !! ip) as [d|] eqn:Hd; simpl.
  - destruct (now >? resetTime d); simpl.
    + apply map_Forall_insert_2; [|done]. simpl. unfold RATE_LIMIT_MAX_REQUESTS. lia.
    + destruct (count d >=? RATE_LIMIT_MAX_REQUESTS) eqn:Hc; simpl; [done|].
      apply map_Forall_insert_2; [|done]. simpl.
      specialize (Hm ip d Hd). simpl in Hm. lia.
  - apply map_Forall_insert_2; [|done]. simpl. unfold RATE_LIMIT_MAX_REQUESTS. lia.
Qed.

(** Whatever connections arrive and whenever the sweep runs, every stored
    count is at least 1 and at most the per-window maximum. *)
Theorem stored_counts_in_range ops :
  map_Forall (fun _ d => 1 <= count d <= RATE_LIMIT_MAX_REQUESTS) (run_table ops ∅).
Proof.
  unfold run_table.
  assert (forall m, map_Forall (fun _ d => 1 <= count d <= RATE_LIMIT_MAX_REQUESTS) m ->
                    map_Forall (fun _ d => 1 <= count d <= RATE_LIMIT_MAX_REQUESTS)
                      (fold_left (fun m op => match op with
                                              | CheckOp ip now => (checkRateLimit ip now m).2
                                              | SweepOp now => sweepRateLimits now m
                                              end) ops m)) as H.
  { induction ops as [|[ip now|now] ops IH]; intros m Hm; simpl; [done| |].
    - apply IH. by apply checkRateLimit_keeps_range.
    - apply IH. unfold sweepRateLimits. intros ip d Hd.
      apply map_lookup_filter_Some in Hd as [Hd _]. by apply (Hm ip d). }
  apply H. apply map_Forall_empty.
Qed.

(** A sweep that ran no later than a check changes neither the answer of the
    check nor the entry the check leaves for the address: what the sweep
    removes, the check would have replaced. *)
Theorem sweep_is_not_observed ip now swept m :
  swept <= now ->
  (checkRateLimit ip now (sweepRateLimits swept m)).1 = (checkRateLimit ip now m).1
  /\ ((checkRateLimit ip now (sweepRateLimits swept m)).2) !! ip
     = ((checkRateLimit ip now m).2) !! ip.
Proof.
  intros Hle. destruct (m !! ip) as [d|] eqn:Hd.
  - pose proof (sweepRateLimits_lookup ip swept m d Hd) as Hs.
    destruct (swept >? resetTime d + RATE_LIMIT_WINDOW) eqn:Hstale.
    + unfold checkRateLimit. rewrite Hs, Hd.
      assert ((now >? resetTime d) = true) as -> by (unfold RATE_LIMIT_WINDOW in *; lia).
      simpl. by rewrite !lookup_insert_eq.
    + unfold checkRateLimit. rewrite Hs, Hd.
      destruct (now >? resetTime d); simpl; [by rewrite !lookup_insert_eq|].
      destruct (count d >=? RATE_LIMIT_MAX_REQUESTS); simpl;
        [by rewrite Hs, Hd | by rewrite !lookup_insert_eq].
  - assert (sweepRateLimits swept m !! ip = None) as Hs.
    { unfold sweepRateLimits. apply map_lookup_filter_None. by left. }
    unfold checkRateLimit. rewrite Hs, Hd. simpl. by rewrite !lookup_insert_eq.
Qed.

Lemma sweep_is_not_observed_witness :
  let m : gmap string RateEntry := {[ "10.0.0.1" := mkRateEntry 100 1000 ]} in
  (checkRateLimit "10.0.0.1" 200000 (sweepRateLimits 150000 m)).1
  = (checkRateLimit "10.0.0.1" 200000 m).1.
Proof.
  intros m. apply (sweep_is_not_observed "10.0.0.1" 200000 150000 m). lia.
Defined.

End RateTable.

(** ** Parsing: the request line, the target and the headers *)

Section ParsedParts.

Variable decode : string -> Result string.

Lemma split_not_nil c s : Js.split c s <> [].
Proof.
  destruct s as [|a s]; simpl; [done|].
  destruct (Ascii.eqb a c); [done | apply cons_head_not_nil].
Qed.

(** Splitting at a character and joining with it gives the text back. *)
Lemma join_split c s : Js.join (String c "") (Js.split c s) = s.
Proof.
  induction s as [|a s IH]; [reflexivity|]. simpl.
  destruct (Ascii.eqb a c) eqn:E.
  - apply Ascii.eqb_eq in E. subst a.
    destruct (Js.split c s) as [|x l] eqn:Hs; [by apply split_not_nil in Hs|].
    rewrite join_cons, IH. reflexivity.
  - rewrite join_cons_head by apply split_not_nil. by rewrite IH.
Qed.

(** No piece of a split contains the separator. *)
Lemma split_pieces c s : Forall (fun piece => Js.indexOf piece c = None) (Js.split c s).
Proof.
  induction s as [|a s IH]; simpl; [by repeat constructor|].
  destruct (Ascii.eqb a c) eqn:E; [by constructor|].
  destruct (Js.split c s) as [|x l]; simpl.
  - repeat constructor. simpl. by rewrite E.
  - inversion IH as [|? ? Hx Hl]; subst. constructor; [|done].
    simpl. by rewrite E, Hx.
Qed.

(** The request line of a parsed request is its method, its target and its
    version with one space between them, and none of the three contains a
    space. *)
Theorem request_line_is_rebuilt raw r :
  parseHttpRequest decode raw = Ok r ->
  nth 0 (Js.split_crlf raw) ""
  = req_method r +:+ " " +:+ req_fullPath r +:+ " " +:+ req_version r
  /\ Js.indexOf (req_method r) " " = None
  /\ Js.indexOf (req_fullPath r) " " = None
  /\ Js.indexOf (req_version r) " " = None.
Proof.
  intros H. apply parseHttpRequest_Ok in H as (requestLine & rest & i & Hs & _ & Hp & _).
  rewrite Hs. simpl. split.
  - rewrite <- (join_split " " requestLine) at 1. rewrite Hp. reflexivity.
  - pose proof (split_pieces " " requestLine) as Hf. rewrite Hp in Hf.
    inversion Hf as [|? ? H1 Hf1]; subst. inversion Hf1 as [|? ? H2 Hf2]; subst.
    inversion Hf2 as [|? ? H3 _]; subst. done.
Qed.

Lemma indexOf_take s c q : Js.indexOf s c = Some q -> Js.indexOf (Js.take q s) c = None.
Proof.
  revert q. induction s as [|a s IH]; intros q Hq; [discriminate|].
  simpl in Hq. destruct (Ascii.eqb a c) eqn:E.
  - by injection Hq as <-.
  - destruct (Js.indexOf s c) as [q'|]; [|discriminate]. injection Hq as <-.
    simpl. rewrite E. by rewrite (IH q').
Qed.

Lemma indexOf_cut s c q :
  Js.indexOf s c = Some q -> s = Js.take q s +:+ String c (Js.drop (q + 1) s).
Proof.
  revert q. induction s as [|a s IH]; intros q Hq; [discriminate|].
  simpl in Hq. destruct (Ascii.eqb a c) eqn:E.
  - injection Hq as <-. apply Ascii.eqb_eq in E. by subst a.
  - destruct (Js.indexOf s c) as [q'|]; [|discriminate]. injection Hq as <-.
    simpl. f_equal. by apply IH.
Qed.

(** The path of a parsed request contains no question mark.  A target
    without one is the path, and the query mapping is empty; a target with
    one is the path, the question mark and the query string. *)
Theorem target_is_path_and_query raw r :
  parseHttpRequest decode raw = Ok r ->
  Js.indexOf (req_path r) "?" = None
  /\ match Js.indexOf (req_fullPath r) "?" with
     | None => req_fullPath r = req_path r /\ req_query r = []
     | Some q =>
         req_fullPath r = req_path r +:+ "?" +:+ Js.drop (q + 1) (req_fullPath r)
         /\ String.length (req_path r) = q
     end.
Proof.
  intros Hparse. unfold parseHttpRequest in Hparse.
  destruct (nonempty raw); simpl in Hparse; [|discriminate].
  destruct (Js.split_crlf raw) as [|requestLine rest]; [discriminate|].
  destruct (nonempty requestLine); simpl in Hparse; [|discriminate].
  destruct (Js.split " " requestLine) as [|method [|fullPath [|version [|x l]]]];
    try discriminate.
  apply bind_Ok in Hparse as (query & Hq & Hparse).
  apply bind_Ok in Hparse as ([headers i] & _ & Hparse).
  injection Hparse as <-. simpl.
  destruct (Js.indexOf fullPath "?") as [q|] eqn:Hidx.
  - split; [by apply indexOf_take|]. split; [by apply indexOf_cut|].
    clear -Hidx. revert q Hidx. induction fullPath as [|a s IH]; intros q Hq; [discriminate|].
    simpl in Hq. destruct (Ascii.eqb a "?"); [by injection Hq as <-|].
    destruct (Js.indexOf s "?") as [q'|]; [|discriminate]. injection Hq as <-.
    simpl. f_equal. by apply IH.
  - split; [done|]. split; [done|]. unfold parse_query in Hq. simpl in Hq.
    by injection Hq as <-.
Qed.

Lemma lower_char_idempotent c : Js.lower_char (Js.lower_char c) = Js.lower_char c.
Proof. destruct c as [[] [] [] [] [] [] [] []]; reflexivity. Qed.

Lemma toLowerCase_idempotent s : Js.toLowerCase (Js.toLowerCase s) = Js.toLowerCase s.
Proof. induction s as [|c s IH]; simpl; [done|]. by rewrite lower_char_idempotent, IH. Qed.

Lemma parse_header_line_entry line headers :
  parse_header_line line headers
  = match header_entry line with
    | Some (name, value) => header_push name value headers
    | None => Ok headers
    end.
Proof.
  unfold parse_header_line, header_entry.
  destruct (Js.indexOf line ":") as [[|c]|]; reflexivity.
Qed.

(** The values under a name after a header is pushed. *)
Lemma header_push_get name value headers headers' name' :
  header_push name value headers = Ok headers' ->
  Obj.get name' headers'
  = if String.eqb name name'
    then Some (match Obj.get name headers with
               | Some old => old ++ [value]
               | None => [value]
               end)%list
    else Obj.get name' headers.
Proof.
  unfold header_push. intros H.
  destruct (String.eqb_spec name name') as [<-|Hne].
  - destruct (Obj.get name headers) as [old|].
    + injection H as <-. apply obj_get_set_eq.
    + destruct (Obj.inherited name); [discriminate|]. injection H as <-.
      apply obj_get_set_eq.
  - destruct (Obj.get name headers) as [old|].
    + injection H as <-. apply obj_get_set_ne. congruence.
    + destruct (Obj.inherited name); [discriminate|]. injection H as <-.
      apply obj_get_set_ne. congruence.
Qed.

Lemma header_loop_values hdrs tail :
  forall i0 headers headers' i name,
    (tail = [] \/ exists after, tail = "" :: after) ->
    Forall (fun l => l <> "") hdrs ->
    header_loop (hdrs ++ tail) i0 headers = Ok (headers', i) ->
    Obj.get name headers'
    = match Obj.get name headers, header_values name hdrs with
      | Some old, vs => Some (old ++ vs)%list
      | None, [] => None
      | None, vs => Some vs
      end.
Proof.
  induction hdrs as [|line hdrs IH]; intros i0 headers headers' i name Htail Hne Hloop.
  - simpl in *. assert (headers' = headers) as ->.
    { destruct Htail as [->|[after ->]]; simpl in Hloop; by injection Hloop as <-. }
    destruct (Obj.get name headers); [by rewrite app_nil_r | done].
  - inversion Hne as [|? ? Hline Hrest]; subst. simpl in Hloop.
    apply nonempty_true in Hline. unfold nonempty in Hline.
    apply negb_true_iff in Hline. rewrite Hline in Hloop.
    apply bind_Ok in Hloop as (h1 & Hpush & Hloop).
    rewrite (IH _ _ _ _ name Htail Hrest Hloop).
    rewrite parse_header_line_entry in Hpush. unfold header_values. simpl.
    fold (header_values name hdrs).
    destruct (header_entry line) as [[n v]|].
    + rewrite (header_push_get _ _ _ _ name Hpush).
      destruct (String.eqb n name) eqn:E.
      * apply String.eqb_eq in E. subst n.
        destruct (Obj.get name headers) as [old|]; simpl;
          [by rewrite <- app_assoc | done].
      * simpl. done.
    + injection Hpush as <-. done.
Qed.

(** The headers of a parsed request: under each name, the values of all the
    header lines with that name (compared without case), in the order of the
    lines; a name that no line carries is absent.  Repeated headers
    accumulate. *)
Theorem headers_accumulate raw requestLine hdrs tail r name :
  Js.split_crlf raw = requestLine :: (hdrs ++ tail)%list ->
  (tail = [] \/ exists after, tail = "" :: after) ->
  Forall (fun l => l <> "") hdrs ->
  parseHttpRequest decode raw = Ok r ->
  Obj.get name (req_headers r)
  = match header_values name hdrs with
    | [] => None
    | vs => Some vs
    end.
Proof.
  intros Hsplit Htail Hne Hparse.
  apply parseHttpRequest_Ok in Hparse
    as (requestLine' & rest & i & Hsplit' & _ & _ & Hloop & _).
  rewrite Hsplit in Hsplit'. injection Hsplit' as <- <-.
  by rewrite (header_loop_values _ _ _ _ _ _ name Htail Hne Hloop).
Qed.

Lemma obj_set_keys {V} (P : string -> Prop) k (v : V) o :
  P k -> Forall (fun kv => P kv.1) o -> Forall (fun kv => P kv.1) (Obj.set k v o).
Proof.
  intros Hk. induction o as [|[k' v'] o IH]; intros Ho; simpl.
  - by repeat constructor.
  - inversion Ho as [|? ? Hk' Ho']; subst.
    destruct (String.eqb k' k); constructor; auto.
Qed.

Lemma header_loop_keys rest :
  forall i0 headers headers' i,
    Forall (fun kv => Js.toLowerCase kv.1 = kv.1) headers ->
    header_loop rest i0 headers = Ok (headers', i) ->
    Forall (fun kv => Js.toLowerCase kv.1 = kv.1) headers'.
Proof.
  induction rest as [|line rest IH]; intros i0 headers headers' i Hh Hloop; simpl in Hloop.
  - by injection Hloop as <- _.
  - destruct (String.eqb line ""); [by injection Hloop as <- _|].
    apply bind_Ok in Hloop as (h1 & Hpush & Hloop).
    eapply IH; [|exact Hloop].
    rewrite parse_header_line_entry in Hpush. unfold header_entry in Hpush.
    destruct (Js.indexOf line ":") as [[|c]|]; try (by injection Hpush as <-).
    unfold header_push in Hpush.
    destruct (Obj.get _ headers).
    + injection Hpush as <-.
      apply (obj_set_keys (fun k => Js.toLowerCase k = k)); [apply toLowerCase_idempotent|done].
    + destruct (Obj.inherited _); [discriminate|]. injection Hpush as <-.
      apply (obj_set_keys (fun k => Js.toLowerCase k = k)); [apply toLowerCase_idempotent|done].
Qed.

(** Every header name of a parsed request is in lower case. *)
Theorem header_names_are_lower_case raw r :
  parseHttpRequest decode raw = Ok r ->
  Forall (fun kv => Js.toLowerCase kv.1 = kv.1) (req_headers r).
Proof.
  intros H. apply parseHttpRequest_Ok in H as (requestLine & rest & i & _ & _ & _ & Hloop & _).
  eapply header_loop_keys; [|exact Hloop]. constructor.
Qed.

End ParsedParts.

Lemma request_line_is_rebuilt_witness :
  nth 0 (Js.split_crlf ("GET /a?b=1 HTTP/1.1" +:+ Js.CRLF +:+ Js.CRLF)) ""
  = "GET" +:+ " " +:+ "/a?b=1" +:+ " " +:+ "HTTP/1.1".
Proof.
  apply (request_line_is_rebuilt percent_decode
           ("GET /a?b=1 HTTP/1.1" +:+ Js.CRLF +:+ Js.CRLF)
           (mkParsed "GET" "/a" "/a?b=1" [("b", "1")] "HTTP/1.1" [] "")).
  reflexivity.
Defined.

Lemma target_is_path_and_query_witness :
  Js.indexOf "/a" "?" = None.
Proof.
  apply (target_is_path_and_query percent_decode
           ("GET /a?b=1 HTTP/1.1" +:+ Js.CRLF +:+ Js.CRLF)
           (mkParsed "GET" "/a" "/a?b=1" [("b", "1")] "HTTP/1.1" [] "")).
  reflexivity.
Defined.

Lemma headers_accumulate_witness :
  Obj.get "accept"
    [("accept", ["text/html"; "application/json"]); ("host", ["h"])]
  = Some ["text/html"; "application/json"].
Proof.
  apply (headers_accumulate percent_decode
           ("GET / HTTP/1.1" +:+ Js.CRLF +:+ "Accept: text/html" +:+ Js.CRLF +:+ "Host: h"
              +:+ Js.CRLF +:+ "ACCEPT:application/json" +:+ Js.CRLF +:+ Js.CRLF +:+ "body")
           "GET / HTTP/1.1" ["Accept: text/html"; "Host: h"; "ACCEPT:application/json"]
           [""; "body"]
           (mkParsed "GET" "/" "/" [] "HTTP/1.1"
              [("accept", ["text/html"; "application/json"]); ("host", ["h"])] "body")
           "accept").
  - reflexivity.
  - right. by exists ["body"].
  - repeat constructor; discriminate.
  - reflexivity.
Defined.

Lemma header_names_are_lower_case_witness :
  Forall (fun kv : string * list string => Js.toLowerCase kv.1 = kv.1) [("host", ["h"])].
Proof.
  apply (header_names_are_lower_case percent_decode
           ("GET / HTTP/1.1" +:+ Js.CRLF +:+ "HOST: h" +:+ Js.CRLF +:+ Js.CRLF)
           (mkParsed "GET" "/" "/" [] "HTTP/1.1" [("host", ["h"])] "")).
  reflexivity.
Defined.

Lemma query_last_value_wins_witness :
  exists queryString,
    "/s?q=a&q=b&r" = "/s" +:+ "?" +:+ queryString
    /\ Obj.get "q" [("q", "b"); ("r", "")]
       = if nonempty queryString
         then last_value percent_decode "q" (Js.split "&" queryString)
         else None.
Proof.
  apply (query_last_value_wins percent_decode
           ("GET /s?q=a&q=b&r HTTP/1.1" +:+ Js.CRLF +:+ Js.CRLF)
           (mkParsed "GET" "/s" "/s?q=a&q=b&r" [("q", "b"); ("r", "")] "HTTP/1.1" [] "")
           "q").
  - reflexivity.
  - discriminate.
Defined.

(** ** Lines, blank lines and the first blank line *)

Section Lines.

Lemma cons_head_app a l1 l2 :
  l1 <> [] -> Js.cons_head a (l1 ++ l2) = (Js.cons_head a l1 ++ l2)%list.
Proof. destruct l1; done. Qed.

Lemma split_crlf_unfold a b rest :
  Js.split_crlf (String a (String b rest))
  = if Ascii.eqb a Js.CR && Ascii.eqb b Js.LF then "" :: Js.split_crlf rest
    else Js.cons_head a (Js.split_crlf (String b rest)).
Proof. reflexivity. Qed.

(** The lines of two texts with CR LF between them are the lines of the one
    followed by the lines of the other. *)
Lemma split_crlf_app a b :
  Js.split_crlf (a +:+ Js.CRLF +:+ b) = (Js.split_crlf a ++ Js.split_crlf b)%list.
Proof.
  assert (forall a,
             (forall b, Js.split_crlf (a +:+ Js.CRLF +:+ b)
                        = (Js.split_crlf a ++ Js.split_crlf b)%list)
             /\ (forall c b, Js.split_crlf (String c a +:+ Js.CRLF +:+ b)
                             = (Js.split_crlf (String c a) ++ Js.split_crlf b)%list))
    as H; [|apply H].
  clear. induction a as [|d a [IH1 IH2]].
  - split.
    + intros b. reflexivity.
    + intros c b.
      change (String c "" +:+ Js.CRLF +:+ b) with (String c (String Js.CR (String Js.LF b))).
      rewrite split_crlf_unfold.
      replace (Ascii.eqb c Js.CR && Ascii.eqb Js.CR Js.LF) with false
        by (by rewrite andb_false_r).
      change (Js.split_crlf (String Js.CR (String Js.LF b))) with ("" :: Js.split_crlf b).
      reflexivity.
  - split; [intros b; apply IH2|]. intros c b.
    change (String c (String d a) +:+ Js.CRLF +:+ b)
      with (String c (String d (a +:+ Js.CRLF +:+ b))).
    rewrite !split_crlf_unfold.
    destruct (Ascii.eqb c Js.CR && Ascii.eqb d Js.LF).
    + by rewrite IH1.
    + change (String d (a +:+ Js.CRLF +:+ b)) with (String d a +:+ Js.CRLF +:+ b).
      rewrite IH2. apply cons_head_app, split_crlf_not_nil.
Qed.

(** A text without CR is one line. *)
Lemma split_crlf_one_line l : Js.indexOf l Js.CR = None -> Js.split_crlf l = [l].
Proof.
  induction l as [|a l IH]; intros H; [reflexivity|].
  simpl in H. destruct (Ascii.eqb a Js.CR) eqn:E; [discriminate|].
  destruct (Js.indexOf l Js.CR) eqn:Hl; [discriminate|].
  destruct l as [|b rest]; [reflexivity|].
  rewrite split_crlf_unfold, E. cbn [andb]. by rewrite IH.
Qed.

Lemma join_app sep l1 l2 :
  l1 <> [] -> l2 <> [] ->
  Js.join sep (l1 ++ l2) = Js.join sep l1 +:+ sep +:+ Js.join sep l2.
Proof.
  intros H1 H2. induction l1 as [|x l1 IH]; [done|].
  destruct l1 as [|y l1].
  - destruct l2; [done|]. reflexivity.
  - change ((x :: y :: l1) ++ l2)%list with (x :: y :: (l1 ++ l2))%list.
    rewrite !join_cons. change (y :: (l1 ++ l2))%list with ((y :: l1) ++ l2)%list.
    rewrite IH by done. by rewrite !append_assoc.
Qed.

(** The lines of a joined list of one-line texts are the list. *)
Lemma split_crlf_join lines :
  lines <> [] ->
  Forall (fun l => Js.indexOf l Js.CR = None) lines ->
  Js.split_crlf (Js.join Js.CRLF lines) = lines.
Proof.
  induction lines as [|x lines IH]; intros Hne Hall; [done|].
  inversion Hall as [|? ? Hx Hrest]; subst.
  destruct lines as [|y lines]; [by apply split_crlf_one_line|].
  rewrite join_cons, split_crlf_app, split_crlf_one_line by done.
  rewrite IH by done. reflexivity.
Qed.

Lemma take_app_length h t : Js.take (String.length h) (h +:+ t) = h.
Proof. induction h as [|a h IH]; simpl; [by destruct t | by rewrite IH]. Qed.

Lemma drop_app_length h t n : Js.drop (String.length h + n) (h +:+ t) = Js.drop n t.
Proof. induction h as [|a h IH]; simpl; [done | by rewrite IH]. Qed.

Lemma indexOfString_cons a s needle :
  indexOfString (String a s) needle
  = if String.prefix needle (String a s) then Some 0%nat
    else match indexOfString s needle with
         | Some i => Some (S i)
         | None => None
         end.
Proof. reflexivity. Qed.

Lemma prefix_blank_line_other a s :
  Ascii.eqb a Js.CR = false ->
  String.prefix (Js.CRLF +:+ Js.CRLF) (String a s) = false.
Proof.
  intros E. apply Ascii.eqb_neq in E.
  change (Js.CRLF +:+ Js.CRLF) with (String Js.CR (String Js.LF Js.CRLF)).
  cbn [String.prefix].
  destruct (ascii_dec Js.CR a); [congruence | reflexivity].
Qed.

Lemma prefix_blank_line_text c s :
  Ascii.eqb c Js.CR = false ->
  String.prefix (Js.CRLF +:+ Js.CRLF) (String Js.CR (String Js.LF (String c s))) = false.
Proof.
  intros E. apply Ascii.eqb_neq in E.
  change (Js.CRLF +:+ Js.CRLF) with (String Js.CR (String Js.LF (String Js.CR (String Js.LF "")))).
  cbn [String.prefix].
  destruct (ascii_dec Js.CR Js.CR); [|reflexivity].
  destruct (ascii_dec Js.LF Js.LF); [|reflexivity].
  destruct (ascii_dec Js.CR c); [congruence | reflexivity].
Qed.

Lemma length_append_string a b :
  String.length (a +:+ b) = (String.length a + String.length b)%nat.
Proof. induction a as [|c a IH]; simpl; [done | by rewrite IH]. Qed.

Lemma prefix_append p t : String.prefix p (p +:+ t) = true.
Proof.
  induction p as [|a p IH]; [by destruct t|].
  change (String a p +:+ t) with (String a (p +:+ t)). cbn [String.prefix].
  destruct (ascii_dec a a); [exact IH | congruence].
Qed.

Lemma indexOfString_blank_line body :
  indexOfString (Js.CRLF +:+ Js.CRLF +:+ body) (Js.CRLF +:+ Js.CRLF) = Some 0%nat.
Proof.
  rewrite <- append_assoc.
  change ((Js.CRLF +:+ Js.CRLF) +:+ body)
    with (String Js.CR (String Js.LF (String Js.CR (String Js.LF body)))) at 1.
  rewrite indexOfString_cons.
  change (String Js.CR (String Js.LF (String Js.CR (String Js.LF body))))
    with ((Js.CRLF +:+ Js.CRLF) +:+ body).
  by rewrite prefix_append.
Qed.

(** Searching for the blank line passes over a text without CR. *)
Lemma indexOfString_skip l t :
  Js.indexOf l Js.CR = None ->
  indexOfString (l +:+ t) (Js.CRLF +:+ Js.CRLF)
  = match indexOfString t (Js.CRLF +:+ Js.CRLF) with
    | Some i => Some (String.length l + i)%nat
    | None => None
    end.
Proof.
  induction l as [|a l IH]; intros H.
  - change ("" +:+ t) with t. by destruct (indexOfString t _).
  - simpl in H. destruct (Ascii.eqb a Js.CR) eqn:E; [discriminate|].
    destruct (Js.indexOf l Js.CR) eqn:Hl; [discriminate|].
    change (String a l +:+ t) with (String a (l +:+ t)).
    rewrite indexOfString_cons, prefix_blank_line_other by done.
    rewrite IH by done. by destruct (indexOfString t _).
Qed.

(** In a response whose head lines are non-empty and free of CR, the first
    blank line is the one after the head. *)
Lemma indexOfString_head lines body :
  lines <> [] ->
  Forall (fun l => l <> "" /\ Js.indexOf l Js.CR = None) lines ->
  indexOfString (Js.join Js.CRLF lines +:+ Js.CRLF +:+ Js.CRLF +:+ body)
    (Js.CRLF +:+ Js.CRLF)
  = Some (String.length (Js.join Js.CRLF lines)).
Proof.
  induction lines as [|x lines IH]; intros Hne Hall; [done|].
  inversion Hall as [|? ? [Hx Hcr] Hrest]; subst.
  destruct lines as [|y lines].
  - change (Js.join Js.CRLF [x]) with x. rewrite indexOfString_skip by done.
    rewrite indexOfString_blank_line. by rewrite Nat.add_0_r.
  - rewrite join_cons, !append_assoc. rewrite indexOfString_skip by done.
    inversion Hrest as [|? ? [Hy Hycr] _]; subst.
    assert (exists c y', y = String c y' /\ Ascii.eqb c Js.CR = false) as (c & y' & -> & Hc).
    { destruct y as [|c y']; [done|]. exists c, y'. split; [done|].
      simpl in Hycr. by destruct (Ascii.eqb c Js.CR). }
    specialize (IH ltac:(done) Hrest).
    set (rest := Js.join Js.CRLF (String c y' :: lines) +:+ Js.CRLF +:+ Js.CRLF +:+ body) in *.
    assert (exists tail, rest = String c tail) as [tail Htail].
    { subst rest. destruct lines; simpl; eauto. }
    change (Js.CRLF +:+ rest) with (String Js.CR (String Js.LF rest)).
    rewrite indexOfString_cons. rewrite Htail at 1.
    rewrite prefix_blank_line_text by done.
    rewrite indexOfString_cons, prefix_blank_line_other by reflexivity.
    rewrite IH. f_equal. rewrite !length_append_string. simpl. lia.
Qed.

End Lines.

(** ** Delivering a serialised response *)

Section Delivering.

Lemma deliver_join requestId first others body :
  Forall (fun l => l <> "" /\ Js.indexOf l Js.CR = None) (first :: others) ->
  deliver requestId (Js.join Js.CRLF ((first :: others) ++ [""; body]))
  = Ok (mkResponse
          (match status_match first with
           | Some digits => parseInt digits
           | None => 200
           end)
          (("X-Request-Id", requestId) :: flat_map response_header others)
          body).
Proof.
  intros Hall. rewrite join_app by done.
  change (Js.join Js.CRLF [""; body]) with (Js.CRLF +:+ body).
  unfold deliver. rewrite indexOfString_head by done.
  rewrite take_app_length, drop_app_length.
  change (Js.drop 4 (Js.CRLF +:+ Js.CRLF +:+ body)) with body.
  rewrite split_crlf_join; [reflexivity | done |].
  eapply Forall_impl; [exact Hall|]. by intros l [_ H].
Qed.



Lemma is_digit_not_space c : is_digit c = true -> Js.is_space c = false.
Proof. destruct c as [[] [] [] [] [] [] [] []]; (reflexivity || discriminate). Qed.

Lemma is_digit_not_CR c : is_digit c = true -> Ascii.eqb c Js.CR = false.
Proof. destruct c as [[] [] [] [] [] [] [] []]; (reflexivity || discriminate). Qed.

Lemma uint_digits d :
  Forall (fun c => is_digit c = true) (list_ascii_of_string (NilEmpty.string_of_uint d)).
Proof. induction d; simpl; constructor; done. Qed.

(** The decimal text of a number that is not negative consists of digits. *)
Lemma of_Z_digits z :
  0 <= z -> Forall (fun c => is_digit c = true) (list_ascii_of_string (Js.of_Z z)).
Proof.
  intros Hz. unfold Js.of_Z. destruct z as [|p|p]; [by repeat constructor | | lia].
  simpl. destruct (Pos.to_uint p) eqn:E; try apply uint_digits.
  by repeat constructor.
Qed.

Lemma byteLength_nonneg s : 0 <= Js.byteLength s.
Proof.
  induction s as [|c s IH]; simpl; [lia|]. destruct (Js.code c <? 128)%N; lia.
Qed.

Lemma digits_no_CR d :
  Forall (fun c => is_digit c = true) (list_ascii_of_string d) -> Js.indexOf d Js.CR = None.
Proof.
  induction d as [|c d IH]; intros H; [reflexivity|].
  simpl in H. inversion H as [|? ? Hc Hd]; subst. simpl.
  rewrite (is_digit_not_CR c Hc). by rewrite IH.
Qed.

Lemma trimStart_digits d :
  Forall (fun c => is_digit c = true) (list_ascii_of_string d) -> Js.trimStart d = d.
Proof.
  destruct d as [|c d]; intros H; [reflexivity|].
  simpl in H. inversion H as [|? ? Hc _]; subst. simpl.
  by rewrite (is_digit_not_space c Hc).
Qed.

Lemma trim_digits d :
  Forall (fun c => is_digit c = true) (list_ascii_of_string d) -> Js.trim d = d.
Proof.
  intros H. unfold Js.trim, Js.trimEnd. rewrite (trimStart_digits d H).
  rewrite trimStart_digits.
  - unfold Js.rev_string. rewrite list_ascii_of_string_of_list_ascii, rev_involutive.
    apply string_of_list_ascii_of_string.
  - unfold Js.rev_string. rewrite list_ascii_of_string_of_list_ascii.
    by apply Forall_rev.
Qed.

Lemma response_header_content_length d :
  Forall (fun c => is_digit c = true) (list_ascii_of_string d) ->
  response_header ("Content-Length: " +:+ d) = [("Content-Length", d)].
Proof.
  intros H. unfold response_header.
  change (Js.indexOf ("Content-Length: " +:+ d) ":") with (Some 14%nat).
  cbv beta iota zeta.
  change (Js.take 14 ("Content-Length: " +:+ d)) with "Content-Length".
  change (Js.drop (14 + 1) ("Content-Length: " +:+ d)) with (String " " d).
  change (Js.trim "Content-Length") with "Content-Length".
  f_equal. f_equal. unfold Js.trim.
  change (Js.trimStart (String " " d)) with (Js.trimStart d).
  by apply trim_digits.
Qed.

(** An error envelope of the gateway, serialised and delivered: the client
    gets the status of the envelope, the content type, the byte length of the
    body, and the JSON body with the reason and the message. *)
Theorem error_response_is_delivered requestId status message :
  In status [400; 401; 403; 404; 405; 408; 413; 429; 500; 501; 503; 504] ->
  exists reason httpResponse,
    statusReasons status = Some reason
    /\ formatHttpResponse (createErrorResponse status message) = Ok httpResponse
    /\ let body := Json.stringify (JObj [("error", JStr reason); ("message", JStr message)]) in
       deliver requestId httpResponse
       = Ok (mkResponse status
               [("X-Request-Id", requestId);
                ("Content-Type", "application/json");
                ("Content-Length", Js.of_Z (Js.byteLength body))]
               body).
Proof.
  intros Hin.
  assert (exists reason, statusReasons status = Some reason
                         /\ status_match ("HTTP/1.1 " +:+ Js.of_Z status +:+ " " +:+ reason)
                            = Some (Js.of_Z status)
                         /\ parseInt (Js.of_Z status) = status
                         /\ Js.indexOf ("HTTP/1.1 " +:+ Js.of_Z status +:+ " " +:+ reason) Js.CR
                            = None) as (reason & Hreason & Hmatch & Hint & Hcr).
  { simpl in Hin.
    repeat (destruct Hin as [<-|Hin]; [eexists; repeat split; reflexivity|]). done. }
  exists reason. eexists. split; [done|].
  set (body := Json.stringify (JObj [("error", JStr reason); ("message", JStr message)])).
  set (digits := Js.of_Z (Js.byteLength body)).
  assert (Forall (fun c => is_digit c = true) (list_ascii_of_string digits)) as Hd
    by apply of_Z_digits, byteLength_nonneg.
  assert (formatHttpResponse (createErrorResponse status message)
          = Ok (Js.join Js.CRLF
                  ((("HTTP/1.1 " +:+ Js.of_Z status +:+ " " +:+ reason)
                      :: ["Content-Type: application/json"; "Content-Length: " +:+ digits])
                     ++ [""; body]))) as Hfmt.
  { unfold createErrorResponse. rewrite Hreason.
    assert (status <> 0) as Hnz by (intros ->; discriminate).
    unfold formatHttpResponse. cbn [prop Obj.get String.eqb Ascii.eqb Bool.eqb truthy_opt truthy].
    apply Z.eqb_neq in Hnz. rewrite Hnz.
    assert (nonempty reason = true) as Hr.
    { simpl in Hin.
      repeat (destruct Hin as [<-|Hin]; [injection Hreason as <-; reflexivity|]). done. }
    unfold nonempty in Hr. rewrite Hr. reflexivity. }
  split; [exact Hfmt|].
  cbv zeta. rewrite deliver_join.
  - rewrite Hmatch, Hint. f_equal. f_equal. f_equal.
    cbn [flat_map]. rewrite response_header_content_length by done. reflexivity.
  - constructor; [split; [simpl; discriminate | exact Hcr]|].
    constructor; [split; [discriminate | reflexivity]|].
    constructor; [|constructor]. split; [simpl; discriminate|].
    change ("Content-Length: " +:+ digits) with (String "C" ("ontent-Length: " +:+ digits)).
    assert (forall p, Js.indexOf p Js.CR = None ->
                      Js.indexOf (p +:+ digits) Js.CR = None) as Happ.
    { induction p as [|a p IH]; intros Hp; [by apply digits_no_CR|].
      simpl in *. destruct (Ascii.eqb a Js.CR); [discriminate|].
      destruct (Js.indexOf p Js.CR); [discriminate|]. by rewrite IH. }
    apply (Happ "Content-Length: "). reflexivity.
Qed.

Lemma error_response_is_delivered_witness :
  exists reason httpResponse,
    statusReasons 503 = Some reason
    /\ formatHttpResponse (createErrorResponse 503 "Server busy, please try again later")
       = Ok httpResponse
    /\ let body := Json.stringify (JObj [("error", JStr reason);
                                         ("message", JStr "Server busy, please try again later")]) in
       deliver "req_1" httpResponse
       = Ok (mkResponse 503
               [("X-Request-Id", "req_1");
                ("Content-Type", "application/json");
                ("Content-Length", Js.of_Z (Js.byteLength body))]
               body).
Proof.
  apply (error_response_is_delivered "req_1" 503 "Server busy, please try again later").
  simpl. tauto.
Defined.

End Delivering.

(** ** The pipeline, path by path *)

Section PipelinePaths.

Lemma collect_collected env prompt st :
  collect (run_messages (env_query env prompt)) (run_failure (env_query env prompt)) "" 0 st
  = (collected env prompt, st).
Proof.
  unfold collected.
  destruct (stateless_collect (run_messages (env_query env prompt))
              (run_failure (env_query env prompt)) "" 0) as [c Hc].
  by rewrite !Hc.
Qed.

(** What the delegation answers, by the way the collection completes. *)
Lemma delegate_run env prompt st :
  delegate env prompt st
  = (let deadline_or_rethrow := fun e : JsError =>
       if String.eqb (err_name e) "AbortError" || run_aborted (env_query env prompt)
       then match formatHttpResponse (createErrorResponse 504 "Gateway timeout") with
            | Ok reply => Returned reply
            | Throw e' => Thrown e'
            end
       else Thrown e in
     match collected env prompt with
     | Normal (fullResponse, _) =>
         match formatHttpResponse (extractJsonResponse (env_candidates env) fullResponse) with
         | Ok reply => Returned reply
         | Throw e => deadline_or_rethrow e
         end
     | Returned reply => Returned reply
     | Thrown e => deadline_or_rethrow e
     end,
     mkGateway (concurrentRequests st) (events st ++ [QueryStarted prompt])%list).
Proof.
  unfold delegate, try_catch, mbind, stmt_bind, start_query.
  rewrite collect_collected. cbv zeta.
  destruct (collected env prompt) as [[fullResponse size]|reply|e].
  - unfold return_ at 1.
    destruct (formatHttpResponse (extractJsonResponse _ _)) as [reply|e]; [done|].
    destruct (_ || _); [|done]. unfold return_. by destruct (formatHttpResponse _).
  - done.
  - destruct (_ || _); [|done]. unfold return_. by destruct (formatHttpResponse _).
Qed.

(** Below capacity [processRequest] is its guarded part between the
    increment and the decrement. *)
Lemma processRequest_below env rawRequest st :
  concurrentRequests st < MAX_CONCURRENT_REQUESTS ->
  processRequest env rawRequest st
  = (let r := guarded_request env rawRequest
                (mkGateway (concurrentRequests st + 1)
                   (events st ++ [Incremented (concurrentRequests st + 1)])%list) in
     (r.1, mkGateway (concurrentRequests r.2 - 1)
             (events r.2 ++ [Decremented (concurrentRequests r.2 - 1)])%list)).
Proof.
  intros Hlt. unfold processRequest.
  assert ((concurrentRequests st >=? MAX_CONCURRENT_REQUESTS) = false) as -> by lia.
  unfold mbind, stmt_bind, increment, try_finally, decrement. cbv zeta.
  by destruct (guarded_request _ _ _).
Qed.

Lemma caught_reply_serialises e :
  exists reply, formatHttpResponse (caught_reply e) = Ok reply.
Proof.
  unfold caught_reply. destruct (_ && _); apply format_error_response; simpl; tauto.
Qed.

Lemma return_caught_reply e st :
  (if nonempty (err_message e) && Js.includes (err_message e) "Invalid request"
   then return_ (formatHttpResponse (createErrorResponse 400 "Malformed HTTP request"))
   else return_ (formatHttpResponse (createErrorResponse 500 "Internal server error")))
    st
  = (return_ (formatHttpResponse (caught_reply e)) st : Completion Empty_set * Gateway).
Proof. unfold caught_reply. by destruct (_ && _). Qed.

(** A request that does not parse is answered without the delegate: with
    400 when the error message contains "Invalid request", with 500
    otherwise; the counter goes up and down and no query is started. *)
Theorem parse_failure_is_answered_locally env rawRequest st e :
  concurrentRequests st < MAX_CONCURRENT_REQUESTS ->
  parseHttpRequest (env_decode env) rawRequest = Throw e ->
  exists reply,
    processRequest env rawRequest st
    = (Returned reply,
       mkGateway (concurrentRequests st)
         (events st ++ [Incremented (concurrentRequests st + 1);
                        Decremented (concurrentRequests st)])%list)
    /\ formatHttpResponse (caught_reply e) = Ok reply.
Proof.
  intros Hlt Hparse. rewrite processRequest_below by done. cbv zeta.
  unfold guarded_request, try_catch, mbind, stmt_bind, eval. rewrite Hparse.
  rewrite return_caught_reply.
  destruct (caught_reply_serialises e) as [reply Hr]. unfold return_. rewrite Hr.
  exists reply. simpl. split; [|done].
  replace (concurrentRequests st + 1 - 1) with (concurrentRequests st) by lia.
  by rewrite <- app_assoc.
Qed.

(** A request whose prompt is over the limit is answered with 413 and the
    delegate is not started. *)
Theorem oversized_prompt_is_refused env rawRequest st parsed :
  concurrentRequests st < MAX_CONCURRENT_REQUESTS ->
  parseHttpRequest (env_decode env) rawRequest = Ok parsed ->
  Js.len (env_prompt env parsed) > MAX_PROMPT_SIZE ->
  exists reply,
    processRequest env rawRequest st
    = (Returned reply,
       mkGateway (concurrentRequests st)
         (events st ++ [Incremented (concurrentRequests st + 1);
                        Decremented (concurrentRequests st)])%list)
    /\ formatHttpResponse (createErrorResponse 413 "Request data too large for processing")
       = Ok reply.
Proof.
  intros Hlt Hparse Hsize. rewrite processRequest_below by done. cbv zeta.
  unfold guarded_request, try_catch, mbind, stmt_bind, eval. rewrite Hparse. cbv zeta.
  assert ((Js.len (env_prompt env parsed) >? MAX_PROMPT_SIZE) = true) as -> by lia.
  destruct (format_error_response 413 "Request data too large for processing")
    as [reply Hr]; [simpl; tauto|].
  unfold return_. rewrite Hr. exists reply. simpl. split; [|done].
  replace (concurrentRequests st + 1 - 1) with (concurrentRequests st) by lia.
  by rewrite <- app_assoc.
Qed.

(** What the guarded part does with a request that parses and whose prompt
    fits: it runs the delegation and answers what it throws. *)
Lemma guarded_request_delegates env rawRequest st parsed :
  parseHttpRequest (env_decode env) rawRequest = Ok parsed ->
  Js.len (env_prompt env parsed) <= MAX_PROMPT_SIZE ->
  guarded_request env rawRequest st
  = match delegate env (env_prompt env parsed) st with
    | (Thrown e, st') => return_ (formatHttpResponse (caught_reply e)) st'
    | done => done
    end.
Proof.
  intros Hparse Hsize.
  unfold guarded_request, try_catch, mbind, stmt_bind, eval. rewrite Hparse. cbv zeta.
  assert ((Js.len (env_prompt env parsed) >? MAX_PROMPT_SIZE) = false) as -> by lia.
  destruct (delegate env (env_prompt env parsed) st) as [[[]|reply|e] st']; try done.
  apply return_caught_reply.
Qed.

(** A request that parses and whose prompt fits starts the delegate exactly
    once, with that prompt, between the increment and the decrement of the
    counter, and is answered. *)
Theorem delegate_is_started_once env rawRequest st parsed :
  concurrentRequests st < MAX_CONCURRENT_REQUESTS ->
  parseHttpRequest (env_decode env) rawRequest = Ok parsed ->
  Js.len (env_prompt env parsed) <= MAX_PROMPT_SIZE ->
  exists reply,
    processRequest env rawRequest st
    = (Returned reply,
       mkGateway (concurrentRequests st)
         (events st ++ [Incremented (concurrentRequests st + 1);
                        QueryStarted (env_prompt env parsed);
                        Decremented (concurrentRequests st)])%list).
Proof.
  intros Hlt Hparse Hsize. rewrite processRequest_below by done. cbv zeta.
  rewrite (guarded_request_delegates env rawRequest _ parsed Hparse Hsize).
  destruct (delegate env (env_prompt env parsed) _) as [c st1] eqn:Hd.
  rewrite delegate_run in Hd. injection Hd as _ <-.
  assert (forall reply : string,
             (Returned reply : Completion Empty_set,
              mkGateway (concurrentRequests st + 1 - 1)
                (((events st ++ [Incremented (concurrentRequests st + 1)])
                    ++ [QueryStarted (env_prompt env parsed)])
                   ++ [Decremented (concurrentRequests st + 1 - 1)])%list)
             = (Returned reply,
                mkGateway (concurrentRequests st)
                  (events st ++ [Incremented (concurrentRequests st + 1);
                                 QueryStarted (env_prompt env parsed);
                                 Decremented (concurrentRequests st)])%list)) as Hst.
  { intros reply.
    replace (concurrentRequests st + 1 - 1) with (concurrentRequests st) by lia.
    by rewrite <- !app_assoc. }
  destruct c as [[]|reply|e].
  - exists reply. apply Hst.
  - destruct (caught_reply_serialises e) as [reply Hr]. unfold return_. rewrite Hr.
    exists reply. apply Hst.
Qed.

End PipelinePaths.

Section PipelineReplies.

Lemma len_append a b : Js.len (a +:+ b) = Js.len a + Js.len b.
Proof. unfold Js.len. rewrite length_append_string. lia. Qed.

(** The reply of a request that reached the delegation. *)
Lemma reply_after_delegation env rawRequest st parsed :
  concurrentRequests st < MAX_CONCURRENT_REQUESTS ->
  parseHttpRequest (env_decode env) rawRequest = Ok parsed ->
  Js.len (env_prompt env parsed) <= MAX_PROMPT_SIZE ->
  forall st1,
    st1 = mkGateway (concurrentRequests st + 1)
            (events st ++ [Incremented (concurrentRequests st + 1)])%list ->
    (processRequest env rawRequest st).1
    = match (delegate env (env_prompt env parsed) st1).1 with
      | Thrown e =>
          match formatHttpResponse (caught_reply e) with
          | Ok reply => Returned reply
          | Throw e' => Thrown e'
          end
      | c => c
      end.
Proof.
  intros Hlt Hparse Hsize st1 ->. rewrite processRequest_below by done. cbv zeta.
  rewrite (guarded_request_delegates env rawRequest _ parsed Hparse Hsize).
  destruct (delegate env (env_prompt env parsed) _) as [[[]|reply|e] st2]; try done.
  cbn [fst]. unfold return_. by destruct (formatHttpResponse _).
Qed.

(** When the delegate's stream fails, the reply is 504 if the error is an
    AbortError or the deadline has fired; otherwise it is 400 if the error
    message contains "Invalid request" and 500 if it does not. *)
Theorem stream_failure_is_classified env rawRequest st parsed e :
  concurrentRequests st < MAX_CONCURRENT_REQUESTS ->
  parseHttpRequest (env_decode env) rawRequest = Ok parsed ->
  Js.len (env_prompt env parsed) <= MAX_PROMPT_SIZE ->
  collected env (env_prompt env parsed) = Thrown e ->
  exists reply,
    (processRequest env rawRequest st).1 = Returned reply
    /\ formatHttpResponse
         (if String.eqb (err_name e) "AbortError"
             || run_aborted (env_query env (env_prompt env parsed))
          then createErrorResponse 504 "Gateway timeout"
          else caught_reply e)
       = Ok reply.
Proof.
  intros Hlt Hparse Hsize Hc.
  rewrite (reply_after_delegation env rawRequest st parsed Hlt Hparse Hsize _ eq_refl).
  rewrite delegate_run. cbv zeta. rewrite Hc. cbn [fst].
  destruct (_ || _).
  - destruct (format_error_response 504 "Gateway timeout") as [r Hr]; [simpl; tauto|].
    rewrite Hr. by exists r.
  - destruct (caught_reply_serialises e) as [r Hr]. rewrite Hr. by exists r.
Qed.

Lemma collect_blocks_returned content :
  forall fullResponse responseSize st reply st',
    collect_blocks content fullResponse responseSize st = (Returned reply, st') ->
    formatHttpResponse (createErrorResponse 500 "Response too large") = Ok reply.
Proof.
  induction content as [|[text|] content IH]; intros f s st reply st' H;
    cbn [collect_blocks] in H.
  - unfold mret, stmt_ret in H. discriminate H.
  - destruct (_ >? _); [|by eapply IH].
    unfold return_ in H. destruct (formatHttpResponse _); cbv beta iota in H;
      [|discriminate H].
    by injection H as <- _.
  - by eapply IH.
Qed.

Lemma collect_message_returned message fullResponse responseSize st reply st' :
  collect_message message fullResponse responseSize st = (Returned reply, st') ->
  In (Ok reply)
     [ formatHttpResponse (createErrorResponse 500 "Response too large");
       formatHttpResponse (createErrorResponse 503 "Service budget exceeded");
       formatHttpResponse (createErrorResponse 500 "Request too complex") ].
Proof.
  destruct message as [content|subtype result|]; cbn [collect_message]; intros H.
  - left. by eapply collect_blocks_returned.
  - destruct (String.eqb subtype "success").
    + destruct (_ >? _); [|unfold mret, stmt_ret in H; discriminate H].
      unfold return_ in H. destruct (formatHttpResponse _) eqn:Hf; cbv beta iota in H;
        [|discriminate H].
      injection H as <- _. left. reflexivity.
    + destruct (Js.startsWith subtype "error");
        [|unfold mret, stmt_ret in H; discriminate H].
      destruct (String.eqb subtype "error_max_budget_usd").
      { unfold return_ in H. destruct (formatHttpResponse _) eqn:Hf; cbv beta iota in H;
          [|discriminate H].
        injection H as <- _. right. left. reflexivity. }
      destruct (String.eqb subtype "error_max_turns");
        [|unfold mret, stmt_ret in H; discriminate H].
      unfold return_ in H. destruct (formatHttpResponse _) eqn:Hf; cbv beta iota in H;
        [|discriminate H].
      injection H as <- _. right. right. left. reflexivity.
  - unfold mret, stmt_ret in H. discriminate H.
Qed.

Lemma collect_returned messages failure :
  forall fullResponse responseSize st reply st',
    collect messages failure fullResponse responseSize st = (Returned reply, st') ->
    In (Ok reply)
       [ formatHttpResponse (createErrorResponse 500 "Response too large");
         formatHttpResponse (createErrorResponse 503 "Service budget exceeded");
         formatHttpResponse (createErrorResponse 500 "Request too complex") ].
Proof.
  induction messages as [|message messages IH]; intros f s st reply st' H;
    cbn [collect] in H.
  - unfold mret, stmt_ret, throw in H. destruct failure; discriminate H.
  - unfold mbind, stmt_bind in H.
    destruct (collect_message message f s st) as [[[f1 s1]|r|e] st1] eqn:Hm.
    + by eapply IH.
    + injection H as <- <-. by eapply collect_message_returned.
    + discriminate H.
Qed.

(** When the collection of the stream stops early, the reply is one of
    three fixed error responses: 500 "Response too large", 503 "Service
    budget exceeded" or 500 "Request too complex". *)
Theorem early_exit_replies env rawRequest st parsed early :
  concurrentRequests st < MAX_CONCURRENT_REQUESTS ->
  parseHttpRequest (env_decode env) rawRequest = Ok parsed ->
  Js.len (env_prompt env parsed) <= MAX_PROMPT_SIZE ->
  collected env (env_prompt env parsed) = Returned early ->
  (processRequest env rawRequest st).1 = Returned early
  /\ In (Ok early)
        [ formatHttpResponse (createErrorResponse 500 "Response too large");
          formatHttpResponse (createErrorResponse 503 "Service budget exceeded");
          formatHttpResponse (createErrorResponse 500 "Request too complex") ].
Proof.
  intros Hlt Hparse Hsize Hc. split.
  - rewrite (reply_after_delegation env rawRequest st parsed Hlt Hparse Hsize _ eq_refl).
    rewrite delegate_run. cbv zeta. by rewrite Hc.
  - pose proof (collect_collected env (env_prompt env parsed) (mkGateway 0 [])) as H.
    rewrite Hc in H. by eapply collect_returned.
Qed.

(** When the stream is collected to its end and the envelope found in it
    serialises, the reply is that serialisation. *)
Theorem valid_envelope_is_the_reply env rawRequest st parsed fullResponse size reply :
  concurrentRequests st < MAX_CONCURRENT_REQUESTS ->
  parseHttpRequest (env_decode env) rawRequest = Ok parsed ->
  Js.len (env_prompt env parsed) <= MAX_PROMPT_SIZE ->
  collected env (env_prompt env parsed) = Normal (fullResponse, size) ->
  formatHttpResponse (extractJsonResponse (env_candidates env) fullResponse) = Ok reply ->
  (processRequest env rawRequest st).1 = Returned reply.
Proof.
  intros Hlt Hparse Hsize Hc Hfmt.
  rewrite (reply_after_delegation env rawRequest st parsed Hlt Hparse Hsize _ eq_refl).
  rewrite delegate_run. cbv zeta. by rewrite Hc, Hfmt.
Qed.

Lemma collect_blocks_size content :
  forall fullResponse responseSize st fullResponse' responseSize' st',
    collect_blocks content fullResponse responseSize st
    = (Normal (fullResponse', responseSize'), st') ->
    responseSize = Js.len fullResponse ->
    responseSize <= MAX_RESPONSE_SIZE ->
    responseSize' = Js.len fullResponse' /\ responseSize' <= MAX_RESPONSE_SIZE.
Proof.
  induction content as [|[text|] content IH]; intros f s st f' s' st' H Hs Hle;
    cbn [collect_blocks] in H.
  - unfold mret, stmt_ret in H. by injection H as <- <- _.
  - destruct (_ >? _) eqn:Hcap.
    + unfold return_ in H. destruct (formatHttpResponse _); cbv beta iota in H;
        discriminate H.
    + eapply IH; [exact H | rewrite len_append; lia | lia].
  - by eapply IH.
Qed.

Lemma collect_message_size message fullResponse responseSize st fullResponse' responseSize' st' :
  collect_message message fullResponse responseSize st
  = (Normal (fullResponse', responseSize'), st') ->
  responseSize = Js.len fullResponse ->
  responseSize <= MAX_RESPONSE_SIZE ->
  responseSize' = Js.len fullResponse' /\ responseSize' <= MAX_RESPONSE_SIZE.
Proof.
  intros Hm Hs Hle. destruct message as [content|subtype result|];
    cbn [collect_message] in Hm.
  - by eapply collect_blocks_size.
  - destruct (String.eqb subtype "success").
    + destruct (_ >? _) eqn:Hcap.
      * unfold return_ in Hm. destruct (formatHttpResponse _); cbv beta iota in Hm;
          discriminate Hm.
      * unfold mret, stmt_ret in Hm. injection Hm as <- <- _.
        rewrite len_append. lia.
    + destruct (Js.startsWith subtype "error").
      * destruct (String.eqb subtype "error_max_budget_usd");
          [unfold return_ in Hm; destruct (formatHttpResponse _); cbv beta iota in Hm;
           discriminate Hm|].
        destruct (String.eqb subtype "error_max_turns");
          [unfold return_ in Hm; destruct (formatHttpResponse _); cbv beta iota in Hm;
           discriminate Hm|].
        unfold mret, stmt_ret in Hm. by injection Hm as <- <- _.
      * unfold mret, stmt_ret in Hm. by injection Hm as <- <- _.
  - unfold mret, stmt_ret in Hm. by injection Hm as <- <- _.
Qed.

Lemma collect_size messages failure :
  forall fullResponse responseSize st fullResponse' responseSize' st',
    collect messages failure fullResponse responseSize st
    = (Normal (fullResponse', responseSize'), st') ->
    responseSize = Js.len fullResponse ->
    responseSize <= MAX_RESPONSE_SIZE ->
    responseSize' = Js.len fullResponse' /\ responseSize' <= MAX_RESPONSE_SIZE.
Proof.
  induction messages as [|message messages IH]; intros f s st f' s' st' H Hs Hle;
    cbn [collect] in H.
  - unfold mret, stmt_ret, throw in H. destruct failure; [discriminate H|].
    by injection H as <- <- _.
  - unfold mbind, stmt_bind in H.
    destruct (collect_message message f s st) as [[[f1 s1]|r|e] st1] eqn:Hm;
      try discriminate H.
    destruct (collect_message_size _ _ _ _ _ _ _ Hm Hs Hle) as [Hs1 Hle1].
    by eapply IH.
Qed.

(** The text handed to [extractJsonResponse] is never longer than the
    response size limit, and the running size is its length. *)
Theorem collected_text_is_bounded env prompt fullResponse size :
  collected env prompt = Normal (fullResponse, size) ->
  size = Js.len fullResponse /\ Js.len fullResponse <= MAX_RESPONSE_SIZE.
Proof.
  intros Hc. pose proof (collect_collected env prompt (mkGateway 0 [])) as H.
  rewrite Hc in H. apply collect_size in H; [|reflexivity|unfold MAX_RESPONSE_SIZE; simpl; lia].
  destruct H as [-> H]. done.
Qed.

End PipelineReplies.

Lemma len_doubled n s : Js.len (doubled n s) = 2 ^ Z.of_nat n * Js.len s.
Proof.
  revert s. induction n as [|n IH]; intros s.
  - simpl. lia.
  - cbn [doubled]. rewrite IH, len_append, Nat2Z.inj_succ, Z.pow_succ_r by lia. lia.
Qed.

Lemma parse_failure_is_answered_locally_witness :
  exists reply,
    processRequest (scripted (createErrorResponse 404 "No such user") false)
      ("GET /a" +:+ Js.CRLF +:+ Js.CRLF) (mkGateway 0 [])
    = (Returned reply, mkGateway 0 [Incremented 1; Decremented 0])
    /\ formatHttpResponse (createErrorResponse 400 "Malformed HTTP request") = Ok reply.
Proof.
  apply (parse_failure_is_answered_locally
           (scripted (createErrorResponse 404 "No such user") false)
           ("GET /a" +:+ Js.CRLF +:+ Js.CRLF) (mkGateway 0 [])
           (Error "Invalid request line: expected 3 parts, got 2")).
  - unfold MAX_CONCURRENT_REQUESTS. simpl. lia.
  - reflexivity.
Defined.

Lemma oversized_prompt_is_refused_witness :
  let env := mkEnv percent_decode (fun _ => doubled 23 "x")
               (fun _ => mkRun [] None false) (fun _ => []) in
  exists reply,
    processRequest env ("GET / HTTP/1.1" +:+ Js.CRLF +:+ Js.CRLF) (mkGateway 0 [])
    = (Returned reply, mkGateway 0 [Incremented 1; Decremented 0])
    /\ formatHttpResponse (createErrorResponse 413 "Request data too large for processing")
       = Ok reply.
Proof.
  intros env.
  apply (oversized_prompt_is_refused env ("GET / HTTP/1.1" +:+ Js.CRLF +:+ Js.CRLF)
           (mkGateway 0 []) (mkParsed "GET" "/" "/" [] "HTTP/1.1" [] "")).
  - unfold MAX_CONCURRENT_REQUESTS. simpl. lia.
  - reflexivity.
  - change (env_prompt env (mkParsed "GET" "/" "/" [] "HTTP/1.1" [] "")) with (doubled 23 "x").
    rewrite len_doubled. reflexivity.
Defined.

Lemma delegate_is_started_once_witness :
  let env := scripted (createErrorResponse 404 "No such user") false in
  exists reply,
    processRequest env ("GET / HTTP/1.1" +:+ Js.CRLF +:+ Js.CRLF) (mkGateway 2 [])
    = (Returned reply,
       mkGateway 2
         [Incremented 3;
          QueryStarted "Process this HTTP/1.1 request and generate an appropriate response";
          Decremented 2]).
Proof.
  intros env.
  apply (delegate_is_started_once env ("GET / HTTP/1.1" +:+ Js.CRLF +:+ Js.CRLF)
           (mkGateway 2 []) (mkParsed "GET" "/" "/" [] "HTTP/1.1" [] "")).
  - unfold MAX_CONCURRENT_REQUESTS. simpl. lia.
  - reflexivity.
  - vm_compute. discriminate.
Defined.

Lemma stream_failure_is_classified_witness :
  let env := mkEnv percent_decode (fun _ => "prompt")
               (fun _ => mkRun [AssistantMessage [TextBlock "partial"]]
                           (Some (mkError "AbortError" "The operation was aborted")) false)
               (fun _ => []) in
  exists reply,
    (processRequest env ("GET / HTTP/1.1" +:+ Js.CRLF +:+ Js.CRLF) (mkGateway 0 [])).1
    = Returned reply
    /\ formatHttpResponse (createErrorResponse 504 "Gateway timeout") = Ok reply.
Proof.
  intros env.
  apply (stream_failure_is_classified env ("GET / HTTP/1.1" +:+ Js.CRLF +:+ Js.CRLF)
           (mkGateway 0 []) (mkParsed "GET" "/" "/" [] "HTTP/1.1" [] "")
           (mkError "AbortError" "The operation was aborted")).
  - unfold MAX_CONCURRENT_REQUESTS. simpl. lia.
  - reflexivity.
  - vm_compute. discriminate.
  - reflexivity.
Defined.

Lemma early_exit_replies_witness :
  let env := mkEnv percent_decode (fun _ => "prompt")
               (fun _ => mkRun [ResultMessage "error_max_budget_usd" None] None false)
               (fun _ => []) in
  exists early,
    formatHttpResponse (createErrorResponse 503 "Service budget exceeded") = Ok early
    /\ (processRequest env ("GET / HTTP/1.1" +:+ Js.CRLF +:+ Js.CRLF) (mkGateway 0 [])).1
       = Returned early.
Proof.
  intros env. eexists. split; [reflexivity|].
  apply (early_exit_replies env ("GET / HTTP/1.1" +:+ Js.CRLF +:+ Js.CRLF)
           (mkGateway 0 []) (mkParsed "GET" "/" "/" [] "HTTP/1.1" [] "")).
  - unfold MAX_CONCURRENT_REQUESTS. simpl. lia.
  - reflexivity.
  - vm_compute. discriminate.
  - reflexivity.
Defined.

Lemma valid_envelope_is_the_reply_witness :
  let envelope := createErrorResponse 404 "No such user" in
  let env := scripted envelope false in
  exists reply,
    formatHttpResponse envelope = Ok reply
    /\ (processRequest env ("GET / HTTP/1.1" +:+ Js.CRLF +:+ Js.CRLF) (mkGateway 0 [])).1
       = Returned reply.
Proof.
  intros envelope env. eexists. split; [reflexivity|].
  apply (valid_envelope_is_the_reply env ("GET / HTTP/1.1" +:+ Js.CRLF +:+ Js.CRLF)
           (mkGateway 0 []) (mkParsed "GET" "/" "/" [] "HTTP/1.1" [] "")
           (Json.stringify envelope) (Js.len (Json.stringify envelope))).
  - unfold MAX_CONCURRENT_REQUESTS. simpl. lia.
  - reflexivity.
  - vm_compute. discriminate.
  - reflexivity.
  - reflexivity.
Defined.

Lemma collected_text_is_bounded_witness :
  let envelope := createErrorResponse 404 "No such user" in
  Js.len (Json.stringify envelope) <= MAX_RESPONSE_SIZE.
Proof.
  intros envelope.
  apply (collected_text_is_bounded (scripted envelope false) "prompt"
           (Json.stringify envelope) (Js.len (Json.stringify envelope))).
  reflexivity.
Defined.

(** ** The envelope taken from the delegate's output, and its headers *)

Section Envelopes.

(** [extractJsonResponse] always hands back an object with a truthy
    preamble: a candidate that has one, or one of its own 500 envelopes. *)
Theorem extracted_envelope_has_preamble candidates text :
  exists props,
    extractJsonResponse candidates text = JObj props
    /\ truthy_opt (Obj.get "preamble" props) = true.
Proof.
  unfold extractJsonResponse.
  destruct (negb (nonempty text)); [eexists; split; reflexivity|].
  destruct (List.find _ (candidates text)) as [parsed|] eqn:Hfind;
    [|eexists; split; reflexivity].
  apply List.find_some in Hfind as [_ Hp].
  destruct parsed; try discriminate Hp. by exists props.
Qed.

Lemma normalize_header_get acc name values acc' l :
  normalize_header acc (name, values) = Ok acc' ->
  Obj.get l acc'
  = if String.eqb (Js.toLowerCase name) l
    then Some (match Obj.get l acc with
               | Some old => old
               | None => []
               end ++ match values with
                      | JArr items => items
                      | v => [v]
                      end)%list
    else Obj.get l acc.
Proof.
  unfold normalize_header. intros H.
  destruct (String.eqb_spec (Js.toLowerCase name) l) as [<-|Hne].
  - destruct (Obj.get (Js.toLowerCase name) acc) as [old|].
    + injection H as <-. apply obj_get_set_eq.
    + destruct (Obj.inherited _); [discriminate H|]. injection H as <-.
      apply obj_get_set_eq.
  - destruct (Obj.get (Js.toLowerCase name) acc) as [old|].
    + injection H as <-. apply obj_get_set_ne. congruence.
    + destruct (Obj.inherited _); [discriminate H|]. injection H as <-.
      apply obj_get_set_ne. congruence.
Qed.

Lemma normalize_headers_get entries :
  forall acc normalizedHeaders l,
    normalize_headers acc entries = Ok normalizedHeaders ->
    Obj.get l normalizedHeaders
    = match Obj.get l acc with
      | Some old => Some (old ++ envelope_values l entries)%list
      | None =>
          if existsb (fun entry => String.eqb (Js.toLowerCase entry.1) l) entries
          then Some (envelope_values l entries)
          else None
      end.
Proof.
  induction entries as [|[name values] entries IH]; intros acc nh l H.
  - simpl in H. injection H as <-. simpl.
    destruct (Obj.get l acc); [by rewrite app_nil_r | done].
  - cbn [normalize_headers] in H. apply bind_Ok in H as (acc1 & H1 & H).
    rewrite (IH _ _ l H). rewrite (normalize_header_get _ _ _ _ l H1).
    unfold envelope_values. cbn [flat_map existsb fst snd].
    fold (envelope_values l entries).
    destruct (String.eqb (Js.toLowerCase name) l); cbn [orb app].
    + destruct (Obj.get l acc) as [old|]; destruct values;
        by rewrite <- ?app_assoc.
    + done.
Qed.

(** The header values that [formatHttpResponse] gathers under a lower-cased
    name are the values given under every spelling of that name, in the
    order given; a name given under no spelling is absent. *)
Theorem header_spellings_are_merged entries normalizedHeaders l :
  normalize_headers [] entries = Ok normalizedHeaders ->
  Obj.get l normalizedHeaders
  = if existsb (fun entry => String.eqb (Js.toLowerCase entry.1) l) entries
    then Some (envelope_values l entries)
    else None.
Proof. intros H. by rewrite (normalize_headers_get _ _ _ l H). Qed.

Lemma header_spellings_are_merged_witness :
  Obj.get "set-cookie" [("set-cookie", [JStr "a=1"; JStr "b=2"; JStr "c=3"]); ("x", [JNum 1])]
  = Some [JStr "a=1"; JStr "b=2"; JStr "c=3"].
Proof.
  apply (header_spellings_are_merged
           [("Set-Cookie", JArr [JStr "a=1"; JStr "b=2"]); ("X", JNum 1);
            ("set-cookie", JStr "c=3")]
           [("set-cookie", [JStr "a=1"; JStr "b=2"; JStr "c=3"]); ("x", [JNum 1])]
           "set-cookie").
  reflexivity.
Defined.

End Envelopes.

(** ** The connection handler *)

Section Handler.

Variable decode : string -> Result string.

(** The request text that the handler builds is parsed back with its body
    intact when the header block has no empty line; with no headers at all
    the body comes back with a CR LF in front. *)
Theorem request_body_survives method url httpVersion headers bodyText r :
  Js.indexOf (method +:+ " " +:+ url +:+ " HTTP/" +:+ httpVersion) Js.CR = None ->
  parseHttpRequest decode (fullRequest method url httpVersion headers bodyText) = Ok r ->
  (Forall (fun l => l <> "") (Js.split_crlf (Js.join Js.CRLF (map header_text headers))) ->
   req_body r = bodyText)
  /\ (headers = [] -> req_body r = Js.CRLF +:+ bodyText).
Proof.
  intros Hline Hparse.
  apply parseHttpRequest_Ok in Hparse as (requestLine & rest & i & Hsplit & _ & _ & Hloop & Hbody).
  unfold fullRequest in Hsplit. cbv zeta in Hsplit.
  rewrite split_crlf_app, (split_crlf_one_line _ Hline) in Hsplit.
  rewrite split_crlf_app in Hsplit.
  change (Js.CRLF +:+ bodyText) with ("" +:+ Js.CRLF +:+ bodyText) in Hsplit.
  rewrite split_crlf_app in Hsplit.
  change (Js.split_crlf "") with [""] in Hsplit.
  injection Hsplit as <- <-.
  split.
  - intros Hne. apply header_loop_stops in Hloop; [|done]. simpl in Hloop. subst i.
    rewrite Hbody.
    replace (length (Js.split_crlf (Js.join Js.CRLF (map header_text headers))) + 1)%nat
      with (length (Js.split_crlf (Js.join Js.CRLF (map header_text headers))) + 1 + 0)%nat
      by lia.
    rewrite <- Nat.add_assoc, (skipn_app (_ + 1)), skipn_all2 by lia.
    replace (_ + 1 - _)%nat with 1%nat by lia. simpl. apply join_split_crlf.
  - intros ->. simpl in Hloop. injection Hloop as _ <-. rewrite Hbody. simpl skipn.
    destruct (Js.split_crlf bodyText) as [|x l] eqn:Hs; [by apply split_crlf_not_nil in Hs|].
    rewrite join_cons, <- Hs, join_split_crlf. reflexivity.
Qed.

Lemma on_event_invariant requestId e c :
  (Js.len (rawRequest c) <= MAX_REQUEST_SIZE
   /\ (requestAborted c = false -> requestSize c = Js.len (rawRequest c) /\ sent c = None)) ->
  Js.len (rawRequest (on_event requestId e c)) <= MAX_REQUEST_SIZE
  /\ (requestAborted (on_event requestId e c) = false ->
      requestSize (on_event requestId e c) = Js.len (rawRequest (on_event requestId e c))
      /\ sent (on_event requestId e c) = None).
Proof.
  intros [Hle Hlive]. destruct e as [chunk| |]; simpl.
  - unfold on_data. destruct (requestAborted c) eqn:Ha; [by rewrite Ha|].
    destruct (Hlive eq_refl) as [Hs Hn].
    destruct (_ >? _) eqn:Hcap; simpl; [done|].
    rewrite len_append. split; [lia|]. intros _. split; [lia|done].
  - unfold on_timeout. destruct (requestAborted c) eqn:Ha; [by rewrite Ha|]. simpl. done.
  - unfold on_error. destruct (requestAborted c) eqn:Ha; [by rewrite Ha|]. simpl. done.
Qed.

(** Whatever arrives on a connection, the collected request text never
    exceeds the request size limit; and while the request is not aborted,
    the running size is the length of the text and nothing has been sent. *)
Theorem request_text_is_capped requestId es :
  Js.len (rawRequest (on_events requestId es new_connection)) <= MAX_REQUEST_SIZE
  /\ (requestAborted (on_events requestId es new_connection) = false ->
      requestSize (on_events requestId es new_connection)
      = Js.len (rawRequest (on_events requestId es new_connection))
      /\ sent (on_events requestId es new_connection) = None).
Proof.
  unfold on_events.
  assert (forall c,
             (Js.len (rawRequest c) <= MAX_REQUEST_SIZE
              /\ (requestAborted c = false ->
                  requestSize c = Js.len (rawRequest c) /\ sent c = None)) ->
             let c' := fold_left (fun c e => on_event requestId e c) es c in
             Js.len (rawRequest c') <= MAX_REQUEST_SIZE
             /\ (requestAborted c' = false ->
                 requestSize c' = Js.len (rawRequest c') /\ sent c' = None)) as H.
  { induction es as [|e es IH]; intros c Hc; simpl; [done|].
    apply IH. by apply on_event_invariant. }
  apply H. split; [by vm_compute|done].
Qed.

Lemma on_data_aborted requestId chunks c :
  requestAborted c = true -> on_events requestId (map Data chunks) c = c.
Proof.
  intros Ha. unfold on_events. induction chunks as [|chunk chunks IH]; simpl; [done|].
  unfold on_data. by rewrite Ha.
Qed.


Lemma oversized_chunks requestId chunks :
  forall c,
    requestAborted c = false -> sent c = None ->
    requestSize c <= MAX_REQUEST_SIZE ->
    requestSize c + total_size chunks > MAX_REQUEST_SIZE ->
    requestAborted (on_events requestId (map Data chunks) c) = true
    /\ exists reply,
        sent (on_events requestId (map Data chunks) c) = Some reply
        /\ res_status reply = 413.
Proof.
  induction chunks as [|chunk chunks IH]; intros c Ha Hs Hle Hsize.
  - simpl in Hsize. lia.
  - change (on_events requestId (map Data (chunk :: chunks)) c)
      with (on_events requestId (map Data chunks) (on_data requestId chunk c)).
    cbn [total_size] in Hsize. unfold on_data. rewrite Ha.
    destruct (_ >? _) eqn:Hcap.
    + rewrite on_data_aborted by done. cbn [requestAborted sent].
      split; [done|]. unfold send_once. rewrite Hs. eexists. split; reflexivity.
    + apply IH; cbn [requestAborted sent requestSize]; try done; lia.
Qed.

(** A request whose chunks add up to more than the request size limit is
    aborted and answered 413, and nothing of it reaches [processRequest]. *)
Theorem oversized_request_is_cut_off requestId chunks decode_utf8 method url httpVersion headers :
  total_size chunks > MAX_REQUEST_SIZE ->
  requestAborted (on_events requestId (map Data chunks) new_connection) = true
  /\ (exists reply,
         sent (on_events requestId (map Data chunks) new_connection) = Some reply
         /\ res_status reply = 413)
  /\ request_to_process decode_utf8 method url httpVersion headers
       (on_events requestId (map Data chunks) new_connection) = None.
Proof.
  intros Hsize.
  destruct (oversized_chunks requestId chunks new_connection) as [Ha Hr];
    [done | done | by vm_compute | by cbn [requestSize new_connection] | ].
  split; [done|]. split; [done|]. unfold request_to_process. by rewrite Ha.
Qed.

(** Chunks that stay within the request size limit are all kept, in order,
    and the request is handed to [processRequest]. *)
Theorem chunks_within_limit_are_kept requestId chunks :
  total_size chunks <= MAX_REQUEST_SIZE ->
  on_events requestId (map Data chunks) new_connection
  = mkConnection (Js.join "" chunks) (total_size chunks) false None.
Proof.
  intros Hsize.
  assert (forall c,
             requestAborted c = false ->
             0 <= requestSize c ->
             requestSize c + total_size chunks <= MAX_REQUEST_SIZE ->
             on_events requestId (map Data chunks) c
             = mkConnection (rawRequest c +:+ Js.join "" chunks)
                 (requestSize c + total_size chunks) false (sent c)) as H.
  { clear Hsize. induction chunks as [|chunk chunks IH]; intros c Ha H0 Hle.
    - simpl. rewrite append_nil_r, Z.add_0_r. by destruct c; simpl in *; subst.
    - change (on_events requestId (map Data (chunk :: chunks)) c)
        with (on_events requestId (map Data chunks) (on_data requestId chunk c)).
      cbn [total_size] in Hle |- *.
      assert (0 <= Js.len chunk) by (unfold Js.len; lia).
      assert (0 <= total_size chunks).
      { clear. induction chunks; cbn [total_size]; [lia|]. unfold Js.len in *. lia. }
      unfold on_data. rewrite Ha.
      destruct (_ >? _) eqn:Hcap; [lia|].
      rewrite IH; cbn [requestAborted sent requestSize rawRequest]; try done; try lia.
      f_equal; [|lia].
      rewrite append_assoc. f_equal.
      destruct chunks as [|x l]; [simpl; by rewrite append_nil_r|].
      by rewrite join_cons. }
  rewrite H; [|done|by vm_compute|by cbn [requestSize new_connection]].
  reflexivity.
Qed.

End Handler.

Lemma request_body_survives_witness :
  req_body
    {| req_method := "POST"; req_path := "/a"; req_fullPath := "/a";
       req_version := "HTTP/1.1"; req_query := [];
       req_headers := [("host", ["x"])]; req_body := "b" +:+ Js.CRLF +:+ Js.CRLF +:+ "c" |}
  = "b" +:+ Js.CRLF +:+ Js.CRLF +:+ "c".
Proof.
  apply (proj1 (request_body_survives percent_decode "POST" "/a" "1.1"
                  [("host", Single "x")] ("b" +:+ Js.CRLF +:+ Js.CRLF +:+ "c") _
                  eq_refl eq_refl)).
  repeat constructor; discriminate.
Defined.

Lemma request_text_is_capped_witness :
  requestSize (on_events "r1" [Data "ab"; Timeout; Data "cd"] new_connection) = 2
  /\ Js.len (rawRequest (on_events "r1" [Data "ab"; Data "cd"] new_connection))
     <= MAX_REQUEST_SIZE
  /\ requestSize (on_events "r1" [Data "ab"; Data "cd"] new_connection)
     = Js.len (rawRequest (on_events "r1" [Data "ab"; Data "cd"] new_connection)).
Proof.
  split; [reflexivity|].
  split; [apply (request_text_is_capped "r1" [Data "ab"; Data "cd"])|].
  apply (proj2 (request_text_is_capped "r1" [Data "ab"; Data "cd"])). reflexivity.
Defined.

Lemma oversized_request_is_cut_off_witness :
  requestAborted
    (on_events "r1" (map Data [doubled 23 "x"; doubled 23 "y"]) new_connection) = true.
Proof.
  apply (oversized_request_is_cut_off "r1" [doubled 23 "x"; doubled 23 "y"]
           (fun s => s) "GET" "/" "1.1" []).
  cbn [total_size]. rewrite !len_doubled. reflexivity.
Defined.

Lemma chunks_within_limit_are_kept_witness :
  on_events "r1" (map Data ["ab"; "cd"]) new_connection
  = mkConnection "abcd" 4 false None.
Proof.
  apply (chunks_within_limit_are_kept "r1" ["ab"; "cd"]). by vm_compute.
Defined.

(** ** The tools: what the validator and the statement tool let through *)

Lemma validated_path_begins_with_root_witness :
  Js.startsWith (Js.toLowerCase "/srv/Files/notes.txt") (SAFE_BASE_DIR "/srv/Files") = true.
Proof.
  apply (validated_path_begins_with_root "/app" "/srv/Files"
           (fun p => if String.eqb p "/srv/Files" then Real p else ENOENT)
           "a/../notes.txt").
  reflexivity.
Defined.

Section Tools.

Variable cwd : string.
Variable FILE_STORAGE_DIR : string.
Variable realpath : string -> Realpath.

(** An error of the validator is one of its own [Access denied] errors, or
    the error with which [fs.realpath] failed on the normalised path for a
    reason other than a missing file, passed on as it is. *)
Theorem denial_is_access_denied_or_realpath_error filepath e :
  validateAndResolvePath cwd FILE_STORAGE_DIR realpath filepath = Throw e ->
  (err_name e = "Error" /\ Js.startsWith (err_message e) "Access denied: " = true)
  \/ realpath (Path.normalize
                 (Path.resolve cwd [SAFE_BASE_DIR_ORIGINAL FILE_STORAGE_DIR; filepath]))
     = Failure e.
Proof.
  unfold validateAndResolvePath.
  destruct (Path.isAbsolute filepath); [intros [= <-]; by left|].
  destruct (Js.includes filepath _); [intros [= <-]; by left|].
  destruct (_ || _); [intros [= <-]; by left|].
  cbv zeta.
  destruct (negb (Js.startsWith (Js.toLowerCase (Path.normalize _)) _));
    [intros [= <-]; by left|].
  destruct (realpath (Path.normalize _)) as [realPath| |e'] eqn:Hreal.
  - destruct (negb _); [intros [= <-]; by left | discriminate].
  - destruct (realpath (Path.dirname _)) as [parent| |e''];
      [destruct (negb _); [intros [= <-]; by left | discriminate]
      | intros [= <-]; by left
      | intros [= <-]; by left].
  - intros [= <-]. by right.
Qed.

End Tools.

Lemma trimStart_head s :
  Js.trimStart s = ""
  \/ exists c s', Js.trimStart s = String c s' /\ Js.is_space c = false.
Proof.
  induction s as [|a s IH]; [by left|].
  cbn [Js.trimStart]. destruct (Js.is_space a) eqn:Ha; [exact IH|].
  right. by exists a, s.
Qed.

Lemma trimStart_snoc c l :
  Js.is_space c = false ->
  exists l', Js.trimStart (string_of_list_ascii (l ++ [c])) = string_of_list_ascii (l' ++ [c]).
Proof.
  intros Hc. induction l as [|a l IH].
  - exists []. simpl. by rewrite Hc.
  - cbn [app string_of_list_ascii Js.trimStart].
    destruct (Js.is_space a); [exact IH|]. by exists (a :: l).
Qed.

Lemma trimEnd_head c s :
  Js.is_space c = false -> exists s', Js.trimEnd (String c s) = String c s'.
Proof.
  intros Hc. unfold Js.trimEnd, Js.rev_string.
  cbn [list_ascii_of_string rev].
  destruct (trimStart_snoc c (rev (list_ascii_of_string s)) Hc) as [l' ->].
  rewrite list_ascii_of_string_of_list_ascii, rev_app_distr. simpl. by eexists.
Qed.

(** A trimmed text has no white space at its start. *)
Lemma trimStart_trim s : Js.trimStart (Js.trim s) = Js.trim s.
Proof.
  unfold Js.trim. destruct (trimStart_head s) as [->|(c & s' & -> & Hc)]; [reflexivity|].
  destruct (trimEnd_head c s' Hc) as [s'' ->]. simpl. by rewrite Hc.
Qed.

Lemma keyword_spaces_Some kw s rest :
  Re.keyword_spaces kw s = Some rest ->
  exists c after, Re.keyword kw s = Some (String c after) /\ Js.is_space c = true.
Proof.
  unfold Re.keyword_spaces. destruct (Re.keyword kw s) as [[|c after]|]; try discriminate.
  simpl. destruct (Js.is_space c) eqn:Hc; [|discriminate]. intros _. by exists c, after.
Qed.

(** A query that [isReadOnlyQuery] accepts begins, after white space, with
    SELECT, EXPLAIN, PRAGMA or WITH in any case of letters, followed by a
    white-space character. *)
Theorem read_only_query_begins_with_keyword sqlQuery :
  isReadOnlyQuery sqlQuery = true ->
  exists kw c after,
    In kw ["SELECT"; "EXPLAIN"; "PRAGMA"; "WITH"]
    /\ Re.keyword kw (Js.trim sqlQuery) = Some (String c after)
    /\ Js.is_space c = true.
Proof.
  unfold isReadOnlyQuery. cbv zeta. rewrite trimStart_trim.
  intros H. apply orb_true_iff in H as [H|H];
    [apply orb_true_iff in H as [H|H]; [apply orb_true_iff in H as [H|H]|]|].
  - apply bool_decide_eq_true in H as [rest H].
    apply keyword_spaces_Some in H as (c & after & Hk & Hc).
    exists "SELECT", c, after. simpl. tauto.
  - apply bool_decide_eq_true in H as [rest H].
    apply keyword_spaces_Some in H as (c & after & Hk & Hc).
    exists "EXPLAIN", c, after. simpl. tauto.
  - destruct (Re.keyword_spaces "PRAGMA" _) as [rest|] eqn:Hp; [|discriminate].
    apply keyword_spaces_Some in Hp as (c & after & Hk & Hc).
    exists "PRAGMA", c, after. simpl. tauto.
  - destruct (Re.keyword "WITH" _) as [[|c after]|] eqn:Hk; try discriminate.
    apply andb_true_iff in H as [Hc _].
    exists "WITH", c, after. simpl. tauto.
Qed.

Section StatementTool.

Variable Statement : Type.
Variable getDatabase : Result unit.
Variable prepare : string -> Result Statement.
Variable stmt_all : Statement -> list JsVal -> Result (list JsVal).
Variable stmt_run : Statement -> list JsVal -> Result (Z * Z).

(** A query longer than the query size limit gets the generic database
    error, whatever the engine would do with it. *)
Theorem oversized_query_is_refused sqlQuery params :
  Js.len sqlQuery > MAX_QUERY_SIZE ->
  sqliteTool Statement getDatabase prepare stmt_all stmt_run sqlQuery params
  = mkToolResult
      (Json.stringify2 (JObj [("success", JBool false); ("error", JStr "Database error")]))
      true.
Proof.
  intros Hsize. unfold sqliteTool, sqlite_try.
  assert ((Js.len sqlQuery >? MAX_QUERY_SIZE) = true) as -> by lia.
  reflexivity.
Qed.

End StatementTool.

Lemma denial_is_access_denied_or_realpath_error_witness :
  let realpath := fun p : string =>
    if String.eqb p "/srv/files/locked/a.txt"
    then Failure (mkError "Error" "EACCES: permission denied, lstat '/srv/files/locked'")
    else Real p in
  (err_name (mkError "Error" "EACCES: permission denied, lstat '/srv/files/locked'") = "Error"
   /\ Js.startsWith
        (err_message (mkError "Error" "EACCES: permission denied, lstat '/srv/files/locked'"))
        "Access denied: " = true)
  \/ realpath (Path.normalize
                 (Path.resolve "/app" [SAFE_BASE_DIR_ORIGINAL "/srv/files"; "locked/a.txt"]))
     = Failure (mkError "Error" "EACCES: permission denied, lstat '/srv/files/locked'").
Proof.
  intros realpath.
  apply (denial_is_access_denied_or_realpath_error "/app" "/srv/files" realpath "locked/a.txt").
  reflexivity.
Defined.

Lemma read_only_query_begins_with_keyword_witness :
  exists kw c after,
    In kw ["SELECT"; "EXPLAIN"; "PRAGMA"; "WITH"]
    /\ Re.keyword kw (Js.trim "  select * from users ") = Some (String c after)
    /\ Js.is_space c = true.
Proof.
  apply (read_only_query_begins_with_keyword "  select * from users ").
  reflexivity.
Defined.

Lemma oversized_query_is_refused_witness :
  sqliteTool unit (Ok tt) (fun _ => Ok tt) (fun _ _ => Ok []) (fun _ _ => Ok (0, 0))
    (doubled 21 "x") []
  = mkToolResult
      (Json.stringify2 (JObj [("success", JBool false); ("error", JStr "Database error")]))
      true.
Proof.
  apply (oversized_query_is_refused unit (Ok tt) (fun _ => Ok tt) (fun _ _ => Ok [])
           (fun _ _ => Ok (0, 0)) (doubled 21 "x") []).
  rewrite len_doubled. reflexivity.
Defined.

(** ** The file tool *)

Section ReadFile.

Variable cwd : string.
Variable FILE_STORAGE_DIR : string.
Variable realpath : string -> Realpath.
Variable stat : string -> Result Stats.
Variable readFile : string -> Result string.
Variable relative : string -> string -> string.

(** A read that succeeds went through the validator and the two checks: the
    content is that of the validated path, which is a file no larger than
    the file size limit. *)
Theorem successful_read_is_validated filepath :
  tool_isError (readFileTool cwd FILE_STORAGE_DIR realpath stat readFile relative filepath)
  = false ->
  exists resolvedPath stats content,
    validateAndResolvePath cwd FILE_STORAGE_DIR realpath filepath = Ok resolvedPath
    /\ stat resolvedPath = Ok stats
    /\ stat_isFile stats = true
    /\ stat_size stats <= MAX_FILE_SIZE
    /\ readFile resolvedPath = Ok content
    /\ tool_text (readFileTool cwd FILE_STORAGE_DIR realpath stat readFile relative filepath)
       = Json.stringify2
           (JObj [ ("success", JBool true);
                   ("filepath", JStr (relative (SAFE_BASE_DIR_ORIGINAL FILE_STORAGE_DIR)
                                        resolvedPath));
                   ("content", JStr content);
                   ("size", JNum (stat_size stats)) ]).
Proof.
  unfold readFileTool, read_file_try.
  destruct (validateAndResolvePath cwd FILE_STORAGE_DIR realpath filepath)
    as [resolvedPath|e]; cbn [mbind result_bind]; [|discriminate].
  destruct (stat resolvedPath) as [stats|e] eqn:Hstat; cbn [mbind result_bind];
    [|discriminate].
  destruct (stat_isFile stats) eqn:Hfile; cbn [negb]; [|discriminate].
  destruct (stat_size stats >? MAX_FILE_SIZE) eqn:Hsize; [discriminate|].
  destruct (readFile resolvedPath) as [content|e] eqn:Hread; cbn [mbind result_bind];
    [|discriminate].
  intros _. exists resolvedPath, stats, content.
  repeat (split; [first [reflexivity | assumption | lia]|]). reflexivity.
Qed.

(** A validated path that is not a file, or is a file larger than the file
    size limit, is not read: the tool answers with its generic error text,
    which says nothing of the size. *)
Theorem unreadable_path_gets_generic_error filepath resolvedPath stats :
  validateAndResolvePath cwd FILE_STORAGE_DIR realpath filepath = Ok resolvedPath ->
  stat resolvedPath = Ok stats ->
  stat_isFile stats = false \/ stat_size stats > MAX_FILE_SIZE ->
  readFileTool cwd FILE_STORAGE_DIR realpath stat readFile relative filepath
  = mkToolResult
      (Json.stringify2 (JObj [("success", JBool false);
                              ("error", JStr "File operation failed")]))
      true.
Proof.
  intros Hv Hstat Hbad. unfold readFileTool, read_file_try.
  rewrite Hv. cbn [mbind result_bind]. rewrite Hstat. cbn [mbind result_bind].
  destruct (stat_isFile stats); cbn [negb]; [|reflexivity].
  destruct Hbad as [Hbad|Hbad]; [discriminate Hbad|].
  assert ((stat_size stats >? MAX_FILE_SIZE) = true) as -> by lia.
  reflexivity.
Qed.

End ReadFile.

Lemma successful_read_is_validated_witness :
  let realpath := fun p : string => if String.eqb p "/srv/files/a.txt" then Real p else ENOENT in
  let stat := fun _ : string => Ok (mkStats true 5) in
  let readFile := fun _ : string => Ok "hello" in
  let relative := fun _ to : string => Js.drop 11 to in
  exists resolvedPath stats content,
    validateAndResolvePath "/app" "/srv/files" realpath "a.txt" = Ok resolvedPath
    /\ stat resolvedPath = Ok stats
    /\ stat_isFile stats = true
    /\ stat_size stats <= MAX_FILE_SIZE
    /\ readFile resolvedPath = Ok content
    /\ tool_text (readFileTool "/app" "/srv/files" realpath stat readFile relative "a.txt")
       = Json.stringify2
           (JObj [ ("success", JBool true);
                   ("filepath", JStr (relative (SAFE_BASE_DIR_ORIGINAL "/srv/files")
                                        resolvedPath));
                   ("content", JStr content);
                   ("size", JNum (stat_size stats)) ]).
Proof.
  intros realpath stat readFile relative.
  apply (successful_read_is_validated "/app" "/srv/files" realpath stat readFile relative
           "a.txt").
  reflexivity.
Defined.

Lemma unreadable_path_gets_generic_error_witness :
  let realpath := fun p : string => Real p in
  let stat := fun _ : string => Ok (mkStats false 4096) in
  readFileTool "/app" "/srv/files" realpath stat (fun _ => Ok "") (fun _ to => to) "docs"
  = mkToolResult
      (Json.stringify2 (JObj [("success", JBool false);
                              ("error", JStr "File operation failed")]))
      true.
Proof.
  intros realpath stat.
  apply (unreadable_path_gets_generic_error "/app" "/srv/files" realpath stat
           (fun _ => Ok "") (fun _ to => to) "docs" "/srv/files/docs" (mkStats false 4096));
    [reflexivity | reflexivity | by left].
Defined.

(** ** The rate-limit gate of the connection handler *)

(** A connection that the gate refuses is answered 429 and leaves the table
    as it was; and every later connection of the address up to the reset
    time of its entry is refused in the same way. *)
Theorem refused_address_stays_refused requestId ip now m reply m' :
  rate_gate requestId ip now m = (Some reply, m') ->
  res_status reply = 429
  /\ m' = m
  /\ exists d,
      m !! ip = Some d
      /\ forall requestId' now',
          now' <= resetTime d ->
          exists reply',
            rate_gate requestId' ip now' m = (Some reply', m)
            /\ res_status reply' = 429.
Proof.
  unfold rate_gate, checkRateLimit.
  destruct (m !! ip) as [d|] eqn:Hm; [|discriminate].
  destruct (now >? resetTime d) eqn:Hnow; [discriminate|].
  destruct (count d >=? RATE_LIMIT_MAX_REQUESTS) eqn:Hcount; [|discriminate].
  intros [= <- <-]. split; [reflexivity|]. split; [reflexivity|].
  exists d. split; [reflexivity|]. intros requestId' now' Hle.
  assert ((now' >? resetTime d) = false) as -> by lia.
  eexists. split; reflexivity.
Qed.

Lemma refused_address_stays_refused_witness :
  let m : gmap string RateEntry := {[ "10.0.0.1" := mkRateEntry 100 60000 ]} in
  exists reply, (rate_gate "req_1" "10.0.0.1" 500 m).1 = Some reply /\ res_status reply = 429.
Proof.
  intros m. eexists. split; [reflexivity|].
  apply (refused_address_stays_refused "req_1" "10.0.0.1" 500 m _ m). reflexivity.
Defined.
